(** * governor-extension-sdk: event router and correlation-ID history cache

    A shallow embedding of the packages [pkg/eventrouter] and
    [pkg/eventrouter/historycache].

    Conventions of the embedding:
    - a Go [error] value is an [option error]; [None] is [nil];
    - the history cache is a shared mutable object: its state lives in the
      [World] that every handler and middleware threads through, next to the
      wall clock read by [time.Now()] and the state handlers act on;
    - loggers and spans are left out: they neither influence the control
      flow nor the value a function returns; so are the tracers that the
      constructors set ([NewRouter], [NewNATSCache]) or that are never
      called ([LocalCache]).  The tracer of the NATS client is kept: its
      constructor leaves it nil, and a call on a nil tracer panics;
    - the mutex of [LocalCache] is left out: the embedding is sequential. *)

From stdpp Require Import gmap strings list fin_maps.
From Stdlib Require Import ZArith Lia.

Set Default Proof Using "Type*".

(** ** Errors *)

(** The error values that occur in the packages: the sentinel of
    [eventrouter/errors.go], the sentinel [nats.ErrKeyExists] that
    [NATSCache.ExistsOrStore] tests for, any other error carrying a message,
    and an error wrapping another one (the [%w] verb of [fmt.Errorf]). *)
Inductive error : Type :=
| ErrHandlerNotFound
| ErrKeyExists
| ErrOther (msg : string)
| ErrWrap (msg : string) (inner : error).

#[global] Instance error_eq_dec : EqDecision error.
Proof. solve_decision. Defined.

(** [errors.Is]: the error or one of the errors it wraps is the target. *)
Fixpoint errors_Is (err target : error) : bool :=
  bool_decide (err = target) ||
  match err with
  | ErrWrap _ inner => errors_Is inner target
  | _ => false
  end.

(** ** The expirable LRU used by the local cache *)

Module expirable.

(** Modelled from the spec: the expirable LRU of
    github.com/hashicorp/golang-lru/v2 is a dependency and not part of this
    repository.  The spec describes it as a fixed-capacity, time-bounded
    cache that evicts the least recently used entry first and also expires
    entries past their TTL.  The entries are kept most recently used first,
    each with the instant at which it expires; a capacity of [0] means
    unbounded.  An entry past its expiry is reported absent whether or not
    it was physically removed already. *)
Record LRU : Type := mkLRU {
  size : nat;
  ttl : Z;
  items : list (string * Z)
}.

Definition NewLRU (sz : nat) (t : Z) : LRU :=
  {| size := sz; ttl := t; items := [] |}.

Fixpoint find (key : string) (l : list (string * Z)) : option Z :=
  match l with
  | [] => None
  | (k, e) :: l' => if String.eqb k key then Some e else find key l'
  end.

Fixpoint unlink (key : string) (l : list (string * Z)) : list (string * Z) :=
  match l with
  | [] => []
  | (k, e) :: l' => if String.eqb k key then l' else (k, e) :: unlink key l'
  end.

(** [Get]: a present, unexpired entry is moved to the front. *)
Definition Get (now : Z) (key : string) (c : LRU) : bool * LRU :=
  match find key (items c) with
  | Some e =>
      if (e <? now)%Z then (false, c)
      else (true, {| size := size c; ttl := ttl c;
                     items := (key, e) :: unlink key (items c) |})
  | None => (false, c)
  end.

(** [Add]: an existing entry is renewed and moved to the front; a new one
    is pushed to the front and, when the capacity is exceeded, the entry at
    the back is evicted.  The boolean says whether an eviction happened. *)
Definition Add (now : Z) (key : string) (c : LRU) : bool * LRU :=
  match find key (items c) with
  | Some _ =>
      (false, {| size := size c; ttl := ttl c;
                 items := (key, now + ttl c)%Z :: unlink key (items c) |})
  | None =>
      let l := (key, now + ttl c)%Z :: items c in
      if (0 <? size c)%nat && (size c <? length l)%nat
      then (true, {| size := size c; ttl := ttl c; items := removelast l |})
      else (false, {| size := size c; ttl := ttl c; items := l |})
  end.

Definition Remove (key : string) (c : LRU) : bool * LRU :=
  match find key (items c) with
  | Some _ => (true, {| size := size c; ttl := ttl c;
                        items := unlink key (items c) |})
  | None => (false, c)
  end.

(** The keys a lookup at time [now] reports present. *)
Definition live (now : Z) (key : string) (c : LRU) : bool :=
  match find key (items c) with
  | Some e => negb (e <? now)%Z
  | None => false
  end.

End expirable.

(** ** The NATS key-value store used by the distributed cache *)

Module nats.

(** [nats.KeyValue] is an interface of the NATS client; the cache uses its
    [Create], which fails when the key exists, and its [Delete].  The
    revision number returned by [Create] is discarded by the caller and is
    left out. *)
Class KeyValue (K : Type) : Type := {
  Create : string → list Byte.byte → K → option error * K;
  Delete : string → K → option error * K
}.

(** Modelled from the spec: a store "offering an atomic create-if-absent
    primitive" whose create "fails specifically with a key already exists
    condition" or with another failure.  The store is a bucket of keys
    together with the failure, if any, that the connection currently
    answers every request with. *)
Record Bucket : Type := mkBucket {
  entries : gmap string (list Byte.byte);
  fault : option error
}.

Definition Bucket_Create (key : string) (value : list Byte.byte) (b : Bucket)
  : option error * Bucket :=
  match fault b with
  | Some e => (Some e, b)
  | None =>
      match entries b !! key with
      | Some _ => (Some ErrKeyExists, b)
      | None => (None, {| entries := <[key := value]> (entries b);
                          fault := fault b |})
      end
  end.

Definition Bucket_Delete (key : string) (b : Bucket) : option error * Bucket :=
  match fault b with
  | Some e => (Some e, b)
  | None => (None, {| entries := delete key (entries b); fault := fault b |})
  end.

#[global] Instance Bucket_KeyValue : KeyValue Bucket :=
  {| Create := Bucket_Create; Delete := Bucket_Delete |}.

End nats.

(** ** Package historycache *)

Module historycache.

(** The interface [HistoryCache].  [now] is the reading of the wall clock at
    the time of the call (the [context.Context] argument is used for tracing
    only and is left out). *)
Class HistoryCache (C : Type) : Type := {
  ExistsOrStore : Z → string → C → (bool * option error) * C;
  Remove : Z → string → C → option error * C
}.

Definition defaultCacheSize : nat := 128.
(** [1 * time.Minute], in nanoseconds. *)
Definition defaultTTL : Z := 60000000000.

Record LocalCache : Type := mkLocalCache { cache : expirable.LRU }.

Definition NewLocalCache : LocalCache :=
  {| cache := expirable.NewLRU defaultCacheSize defaultTTL |}.

Definition LocalCache_ExistsOrStore (now : Z) (id : string) (lc : LocalCache)
  : (bool * option error) * LocalCache :=
  let '(exists_, c1) := expirable.Get now id (cache lc) in
  let c2 := if negb exists_ then snd (expirable.Add now id c1) else c1 in
  ((exists_, None), {| cache := c2 |}).

Definition LocalCache_Remove (now : Z) (id : string) (lc : LocalCache)
  : option error * LocalCache :=
  (None, {| cache := snd (expirable.Remove id (cache lc)) |}).

#[global] Instance LocalCache_HistoryCache : HistoryCache LocalCache :=
  {| ExistsOrStore := LocalCache_ExistsOrStore; Remove := LocalCache_Remove |}.

Record NATSCache (K : Type) : Type := mkNATSCache { kv : K }.
Arguments mkNATSCache {K} _.
Arguments kv {K} _.

Definition NewNATSCache {K : Type} (k : K) : NATSCache K := {| kv := k |}.

Definition NATSCache_ExistsOrStore {K : Type} `{!nats.KeyValue K}
    (now : Z) (id : string) (c : NATSCache K)
  : (bool * option error) * NATSCache K :=
  let '(err, k') := nats.Create id [] (kv c) in
  match err with
  | Some e =>
      if errors_Is e ErrKeyExists
      then ((true, None), {| kv := k' |})
      else ((false, Some e), {| kv := k' |})
  | None => ((false, None), {| kv := k' |})
  end.

Definition NATSCache_Remove {K : Type} `{!nats.KeyValue K}
    (now : Z) (id : string) (c : NATSCache K) : option error * NATSCache K :=
  let '(err, k') := nats.Delete id (kv c) in (err, {| kv := k' |}).

#[global] Instance NATSCache_HistoryCache {K : Type} `{!nats.KeyValue K}
  : HistoryCache (NATSCache K) :=
  {| ExistsOrStore := NATSCache_ExistsOrStore; Remove := NATSCache_Remove |}.

End historycache.

(** ** Package eventrouter *)

Module eventrouter.
Import historycache.

(** Modelled from the spec: the action names and the correlation-ID header
    key are constants of the governor-api events package, which is not part
    of this repository.  The spec gives the actions as the closed
    enumeration Create, Update, Delete, Approve, Deny, Revoke and the header
    key as "a fixed, well-known key"; the router and the skip strategies use
    them as map keys, so all that matters is that the six action names are
    pairwise distinct strings. *)
Definition GovernorEventCreate : string := "CREATE".
Definition GovernorEventUpdate : string := "UPDATE".
Definition GovernorEventDelete : string := "DELETE".
Definition GovernorEventApprove : string := "APPROVE".
Definition GovernorEventDeny : string := "DENY".
Definition GovernorEventRevoke : string := "REVOKE".
Definition GovernorEventCorrelationIDHeader : string := "X-Governor-Correlation-ID".

(** [nats.Header] is a [map[string][]string]; a nil map is [None]. *)
Record Event : Type := mkEvent {
  Action : string;
  Headers : option (gmap string (list string));
  TraceContext : option (gmap string string);
  ExtensionResourceID : string
}.

(** [nats.Header.Get]: the first value stored under the key, or the empty
    string. *)
Definition Header_Get (h : gmap string (list string)) (key : string) : string :=
  match h !! key with
  | Some (v :: _) => v
  | _ => ""
  end.

(** The values a [context.Context] carries in these packages: the subject
    saved by the router and the correlation ID injected by the middleware. *)
Record Context : Type := mkContext {
  ctx_subject : option string;
  ctx_correlation_id : option string
}.

Definition Background : Context :=
  {| ctx_subject := None; ctx_correlation_id := None |}.

Definition SaveSubjectToContext (ctx : Context) (subject : string) : Context :=
  {| ctx_subject := Some subject; ctx_correlation_id := ctx_correlation_id ctx |}.

Definition GetSubjectFromContext (ctx : Context) : string :=
  match ctx_subject ctx with
  | Some subject => subject
  | None => ""
  end.

(** Modelled from the spec: [govevents.InjectCorrelationID] belongs to
    governor-api; it "injects the correlation ID into the context". *)
Definition InjectCorrelationID (ctx : Context) (cid : string) : Context :=
  {| ctx_subject := ctx_subject ctx; ctx_correlation_id := Some cid |}.

Section Router.
Context {C S : Type} `{!HistoryCache C}.

(** What a handler can observe and change: the wall clock, the history cache
    of the correlation-ID processor and the state of the application. *)
Record World : Type := mkWorld {
  clock : Z;
  histcache : C;
  user : S
}.

Definition set_histcache (c : C) (w : World) : World :=
  {| clock := clock w; histcache := c; user := user w |}.

Definition set_clock (t : Z) (w : World) : World :=
  {| clock := t; histcache := histcache w; user := user w |}.

(** A small state monad over the world. *)
Definition M (A : Type) : Type := World → A * World.

Definition ret {A : Type} (a : A) : M A := λ w, (a, w).

Definition bind {A B : Type} (m : M A) (k : A → M B) : M B :=
  λ w, let '(a, w') := m w in k a w'.

Notation "'let*' x ':=' m 'in' k" := (bind m (λ x, k))
  (at level 10, x name, m at level 100, k at level 200).
Notation "'let*' ' p ':=' m 'in' k" :=
  (bind m (λ x, match x with p => k end))
  (at level 10, p pattern, m at level 100, k at level 200).

(** [Handler] and [Middleware] of the package. *)
Definition Handler : Type := Context → Event → M (option error).
Definition Middleware : Type := Handler → Handler.

(** *** correlationid.go *)

(** [skippableRoutes] is a [map[string]map[string]struct{}]: for each action
    the set of subjects, or the wildcard, that may be skipped. *)
Record CorrelationIDProcessor : Type := mkCorrelationIDProcessor {
  skippableRoutes : gmap string (gset string)
}.

Definition CorrelationIDProcessorOpt : Type :=
  CorrelationIDProcessor → CorrelationIDProcessor.

Definition CorrelationIDProcessorWithSkipStrategyUpdateOnly
  : CorrelationIDProcessorOpt :=
  λ _, {| skippableRoutes := {[ GovernorEventUpdate := {[ "*" ]} ]} |}.

Definition CorrelationIDProcessorWithSkipStrategySkipAll
  : CorrelationIDProcessorOpt :=
  λ _, {| skippableRoutes :=
            <[ GovernorEventUpdate := {[ "*" ]} ]>
           (<[ GovernorEventCreate := {[ "*" ]} ]>
           (<[ GovernorEventDelete := {[ "*" ]} ]>
           (<[ GovernorEventApprove := {[ "*" ]} ]>
           (<[ GovernorEventDeny := {[ "*" ]} ]>
           (<[ GovernorEventRevoke := {[ "*" ]} ]> ∅))))) |}.

Definition CorrelationIDProcessorWithSkipStrategyCustom
    (sr : gmap string (gset string)) : CorrelationIDProcessorOpt :=
  λ _, {| skippableRoutes := sr |}.

(** The history cache of the processor is the one in the world; the default
    skip strategy is set before the options are applied. *)
Definition NewCorrelationIDProcessor (opts : list CorrelationIDProcessorOpt)
  : CorrelationIDProcessor :=
  fold_left (λ p opt, opt p) opts
    (CorrelationIDProcessorWithSkipStrategyUpdateOnly
       {| skippableRoutes := ∅ |}).

Definition ShouldSkip (p : CorrelationIDProcessor) (cid action subj : string)
  : M (bool * option error) :=
  λ w,
    let '((exists_, err), c') := ExistsOrStore (clock w) cid (histcache w) in
    let w' := set_histcache c' w in
    match err with
    | Some e => ((false, Some e), w')
    | None =>
        if negb exists_ then ((false, None), w')
        else
          match skippableRoutes p !! action with
          | Some subjs =>
              if bool_decide ("*" ∈ subjs) then ((true, None), w')
              else if bool_decide (subj ∈ subjs) then ((true, None), w')
              else ((false, None), w')
          | None => ((false, None), w')
          end
    end.

(** The correlation ID an event carries: empty when there are no headers or
    the header is absent. *)
Definition event_cid (event : Event) : string :=
  match Headers event with
  | Some headers => Header_Get headers GovernorEventCorrelationIDHeader
  | None => ""
  end.

Definition MWInjectCorrelationID (p : CorrelationIDProcessor) : Middleware :=
  λ next ctx event,
    let cid := event_cid event in
    let subj := GetSubjectFromContext ctx in
    let* '(skip, err) := ShouldSkip p cid (Action event) subj in
    match err with
    | Some e => ret (Some e)
    | None =>
        if negb (String.eqb subj "") && negb (String.eqb cid "") && skip
        then ret None
        else next (InjectCorrelationID ctx cid) event
    end.

(** *** The router *)

Record Router : Type := mkRouter {
  routes : gmap string (gmap string Handler);
  mwchain : Middleware;
  correlationIDProcessor : option CorrelationIDProcessor
}.

Definition Option : Type := Router → Router.

Definition applyGlobalMiddleware (mw : Middleware) (r : Router) : Router :=
  let next := mwchain r in
  {| routes := routes r;
     mwchain := λ handler, mw (next handler);
     correlationIDProcessor := correlationIDProcessor r |}.

Definition WithCorrelationIDProcessor (p : CorrelationIDProcessor) : Option :=
  λ r, applyGlobalMiddleware (MWInjectCorrelationID p)
         {| routes := routes r; mwchain := mwchain r;
            correlationIDProcessor := Some p |}.

Definition WithMiddleware (mw : Middleware) : Option :=
  λ r, applyGlobalMiddleware mw r.

Definition NewRouter (opts : list Option) : Router :=
  fold_left (λ r opt, opt r) opts
    {| routes := ∅; mwchain := λ handler, handler;
       correlationIDProcessor := None |}.

Definition addRoute (action subj : string) (handler : Handler)
    (middlewares : list Middleware) (r : Router) : Router :=
  let inner :=
    match routes r !! subj with
    | Some m => m
    | None => ∅
    end in
  let handler' := fold_left (λ h mw, mw h) middlewares handler in
  {| routes := <[ subj := <[ action := handler' ]> inner ]> (routes r);
     mwchain := mwchain r;
     correlationIDProcessor := correlationIDProcessor r |}.

Definition Create := addRoute GovernorEventCreate.
Definition Update := addRoute GovernorEventUpdate.
Definition Delete := addRoute GovernorEventDelete.
Definition Approve := addRoute GovernorEventApprove.
Definition Deny := addRoute GovernorEventDeny.
Definition Revoke := addRoute GovernorEventRevoke.

Definition Process (r : Router) (ctx : Context) (subj : string) (event : Event)
  : M (option error) :=
  match routes r !! subj with
  | None => ret (Some ErrHandlerNotFound)
  | Some m =>
      let ctx' := SaveSubjectToContext ctx subj in
      match m !! Action event with
      | Some handler => mwchain r handler ctx' event
      | None => ret None
      end
  end.

Definition Use (mw : Middleware) (r : Router) : Router :=
  applyGlobalMiddleware mw r.

(** [Subjects] ranges over a Go map, so the order of the result is
    unspecified; only membership is meaningful. *)
Definition Subjects (r : Router) : list string :=
  (map_to_list (routes r)).*1.

End Router.

Arguments World : clear implicits.
Arguments M : clear implicits.
Arguments Handler : clear implicits.
Arguments Middleware : clear implicits.
Arguments Router : clear implicits.
Arguments Option : clear implicits.

End eventrouter.

Import historycache eventrouter.

(** ** Vocabulary of the statements *)

(** The contract test of the history cache: the same id is looked up twice,
    at the clock readings [now1] and [now2]; the two answers are returned. *)
Definition ExistsOrStore_twice {C : Type} `{!HistoryCache C}
    (now1 now2 : Z) (id : string) (c : C)
  : (bool * option error) * (bool * option error) :=
  let '(r1, c1) := ExistsOrStore now1 id c in
  let '(r2, _) := ExistsOrStore now2 id c1 in
  (r1, r2).

(** A middleware given by its inbound code [pre], run before the wrapped
    handler, and its outbound code [post], run after it; the error of the
    wrapped handler is passed on. *)
Definition around {C S : Type} (pre post : World C S → World C S)
  : Middleware C S :=
  λ next ctx event w,
    let '(e, w') := next ctx event (pre w) in (e, post w').

(** One call of the registration interface of the router. *)
Inductive Registration (C S : Type) : Type :=
| RegCreate (subj : string) (h : Handler C S) (mws : list (Middleware C S))
| RegUpdate (subj : string) (h : Handler C S) (mws : list (Middleware C S))
| RegDelete (subj : string) (h : Handler C S) (mws : list (Middleware C S))
| RegApprove (subj : string) (h : Handler C S) (mws : list (Middleware C S))
| RegDeny (subj : string) (h : Handler C S) (mws : list (Middleware C S))
| RegRevoke (subj : string) (h : Handler C S) (mws : list (Middleware C S))
| RegUse (mw : Middleware C S).
Arguments RegCreate {C S} _ _ _.
Arguments RegUpdate {C S} _ _ _.
Arguments RegDelete {C S} _ _ _.
Arguments RegApprove {C S} _ _ _.
Arguments RegDeny {C S} _ _ _.
Arguments RegRevoke {C S} _ _ _.
Arguments RegUse {C S} _.

Definition register {C S : Type} (r : Router C S) (c : Registration C S)
  : Router C S :=
  match c with
  | RegCreate subj h mws => Create subj h mws r
  | RegUpdate subj h mws => Update subj h mws r
  | RegDelete subj h mws => Delete subj h mws r
  | RegApprove subj h mws => Approve subj h mws r
  | RegDeny subj h mws => Deny subj h mws r
  | RegRevoke subj h mws => Revoke subj h mws r
  | RegUse mw => Use mw r
  end.

(** The route a call registers: action, subject and the handler wrapped in
    the middlewares given with it. *)
Definition registered_route {C S : Type} (c : Registration C S)
  : option (string * string * Handler C S) :=
  let wrap h mws := fold_left (λ h' (mw : Middleware C S), mw h') mws h in
  match c with
  | RegCreate subj h mws => Some (GovernorEventCreate, subj, wrap h mws)
  | RegUpdate subj h mws => Some (GovernorEventUpdate, subj, wrap h mws)
  | RegDelete subj h mws => Some (GovernorEventDelete, subj, wrap h mws)
  | RegApprove subj h mws => Some (GovernorEventApprove, subj, wrap h mws)
  | RegDeny subj h mws => Some (GovernorEventDeny, subj, wrap h mws)
  | RegRevoke subj h mws => Some (GovernorEventRevoke, subj, wrap h mws)
  | RegUse _ => None
  end.

(** An action is registered for a subject by some call of the sequence. *)
Definition registered {C S : Type} (calls : list (Registration C S))
    (subj action : string) : Prop :=
  ∃ c h, c ∈ calls ∧ registered_route c = Some (action, subj, h).

(** The handler of the last call of the sequence that registers the action
    for the subject. *)
Fixpoint last_registration {C S : Type} (calls : list (Registration C S))
    (subj action : string) : option (Handler C S) :=
  match calls with
  | [] => None
  | c :: calls' =>
      match last_registration calls' subj action with
      | Some h => Some h
      | None =>
          match registered_route c with
          | Some (a, s, h) =>
              if String.eqb s subj && String.eqb a action then Some h else None
          | None => None
          end
      end
  end.

(** The handler bound to a subject and an action in the route table. *)
Definition bound {C S : Type} (r : Router C S) (subj action : string)
  : option (Handler C S) :=
  match routes r !! subj with
  | Some m => m !! action
  | None => None
  end.

(** *** Sample inputs *)

(** A handler that counts its invocations in the application state and
    fails, so that its result is told apart from [nil]. *)
Definition counting_handler {C : Type} : Handler C nat :=
  λ _ _ w,
    (Some (ErrOther "handler ran"),
     {| clock := clock w; histcache := histcache w; user := S (user w) |}).

(** A counting handler that takes longer than the TTL of the local cache:
    the clock has passed the TTL when it returns. *)
Definition slow_handler {C : Type} : Handler C nat :=
  λ _ _ w,
    (Some (ErrOther "handler ran"),
     {| clock := clock w + defaultTTL + 1; histcache := histcache w;
        user := S (user w) |}).

(** A counting handler that holds the history cache and removes from it
    the correlation ID it finds in its context. *)
Definition forgetful_handler {C : Type} `{!HistoryCache C} : Handler C nat :=
  λ ctx _ w,
    let cid := default "" (ctx_correlation_id ctx) in
    (Some (ErrOther "handler ran"),
     {| clock := clock w;
        histcache := snd (Remove (clock w) cid (histcache w));
        user := S (user w) |}).

(** Two deliveries of an event in direct succession: the two results and
    the number of runs of a counting handler after each. *)
Definition deliver_twice {C : Type} `{!HistoryCache C} (r : Router C nat)
    (subj : string) (event : Event) (w : World C nat)
  : (option error * nat) * (option error * nat) :=
  let first := Process r Background subj event w in
  let second := Process r Background subj event (snd first) in
  ((fst first, user (snd first)), (fst second, user (snd second))).

(** A handler that does nothing and succeeds. *)
Definition idle_handler {C S : Type} : Handler C S :=
  λ _ _ w, (None, w).

(** A handler and middlewares that leave markers in the application state. *)
Definition mark {C : Type} (s : string) (w : World C (list string))
  : World C (list string) :=
  {| clock := clock w; histcache := histcache w; user := user w ++ [s] |}.

Definition marking_handler {C : Type} : Handler C (list string) :=
  λ _ _ w, (None, mark "handler" w).

Definition sample_event (action cid : string) : Event :=
  {| Action := action;
     Headers := Some {[ GovernorEventCorrelationIDHeader := [cid] ]};
     TraceContext := None;
     ExtensionResourceID := "resource-1" |}.

Definition local_world {S : Type} (s : S) : World LocalCache S :=
  {| clock := 0; histcache := NewLocalCache; user := s |}.

(** A world whose NATS store answers every request with a failure. *)
Definition failing_world : World (NATSCache nats.Bucket) nat :=
  {| clock := 0;
     histcache := NewNATSCache {| nats.entries := ∅;
                                  nats.fault := Some (ErrOther "timeout") |};
     user := 0%nat |}.

(** The router of the scenarios: the correlation-ID processor with its
    default strategy as the only global middleware. *)
Definition correlated_router {C S : Type} `{!HistoryCache C} : Router C S :=
  NewRouter [WithCorrelationIDProcessor (NewCorrelationIDProcessor [])].

(** ** Package erdvalidator *)

(** [err.Error()]: the text of an error. *)
Definition Error (e : error) : string :=
  match e with
  | ErrHandlerNotFound => "handler not found"
  | ErrKeyExists => "nats: key exists"
  | ErrOther msg => msg
  | ErrWrap msg _ => msg
  end.

Module regexp.

(** Modelled from the spec: the package [regexp] of the Go library is not
    part of this repository.  Its patterns are given here as syntax trees,
    with a character class as a predicate on bytes, and matched by
    derivatives; a pattern between [^] and [$] has to match the whole
    text. *)
Inductive regex : Type :=
| Empty
| Eps
| Class (f : Ascii.ascii → bool)
| Cat (r1 r2 : regex)
| Alt (r1 r2 : regex)
| Star (r : regex).

Definition Plus (r : regex) : regex := Cat r (Star r).

Fixpoint nullable (r : regex) : bool :=
  match r with
  | Empty => false
  | Eps => true
  | Class _ => false
  | Cat r1 r2 => nullable r1 && nullable r2
  | Alt r1 r2 => nullable r1 || nullable r2
  | Star _ => true
  end.

Fixpoint deriv (a : Ascii.ascii) (r : regex) : regex :=
  match r with
  | Empty => Empty
  | Eps => Empty
  | Class f => if f a then Eps else Empty
  | Cat r1 r2 =>
      Alt (Cat (deriv a r1) r2) (if nullable r1 then deriv a r2 else Empty)
  | Alt r1 r2 => Alt (deriv a r1) (deriv a r2)
  | Star r' => Cat (deriv a r') (Star r')
  end.

(** [MatchString] of the pattern [^r$]. *)
Fixpoint MatchString (r : regex) (s : string) : bool :=
  match s with
  | EmptyString => nullable r
  | String a s' => MatchString (deriv a r) s'
  end.

(** The texts a pattern denotes. *)
Inductive lang : regex → list Ascii.ascii → Prop :=
| lang_Eps : lang Eps []
| lang_Class f a : f a = true → lang (Class f) [a]
| lang_Cat r1 r2 l1 l2 : lang r1 l1 → lang r2 l2 → lang (Cat r1 r2) (l1 ++ l2)
| lang_Alt_l r1 r2 l : lang r1 l → lang (Alt r1 r2) l
| lang_Alt_r r1 r2 l : lang r2 l → lang (Alt r1 r2) l
| lang_Star_nil r : lang (Star r) []
| lang_Star_app r l1 l2 :
    lang r l1 → lang (Star r) l2 → lang (Star r) (l1 ++ l2).

End regexp.

Module erdvalidator.

(** [ErrERDValidationFailed] and [mkValidationErr] of the package. *)
Definition ErrERDValidationFailed : error := ErrOther "ERD validation failed".

Definition mkValidationErr (msg : string) : error :=
  ErrWrap (Error ErrERDValidationFailed +:+ ": " +:+ msg) ErrERDValidationFailed.

(** The class [[a-z0-9]]. *)
Definition lower_or_digit (a : Ascii.ascii) : bool :=
  let n := Ascii.nat_of_ascii a in
  ((97 <=? n)%nat && (n <=? 122)%nat) || ((48 <=? n)%nat && (n <=? 57)%nat).

(** The character [-], byte 45. *)
Definition hyphen (a : Ascii.ascii) : bool := (Ascii.nat_of_ascii a =? 45)%nat.

(** The pattern [^[a-z0-9]+(?:-[a-z0-9]+)*$] of [isValidSlug]. *)
Definition slug_pattern : regexp.regex :=
  regexp.Cat (regexp.Plus (regexp.Class lower_or_digit))
    (regexp.Star
       (regexp.Cat (regexp.Class hyphen)
          (regexp.Plus (regexp.Class lower_or_digit)))).

Definition isValidSlug (s : string) : bool :=
  regexp.MatchString slug_pattern s.

(** Modelled from the spec: [ExtensionResourceDefinitionReq] and its scopes
    belong to governor-api.  [Enabled] is a pointer and may be nil; [Schema]
    is the raw JSON text.  The two scopes are the ones the error message of
    [Validate] names. *)
Record ExtensionResourceDefinitionReq : Type := mkERDReq {
  Name : string;
  Description : string;
  Enabled : option bool;
  SlugSingular : string;
  SlugPlural : string;
  Version : string;
  Scope : string;
  Schema : string
}.

Definition ExtensionResourceDefinitionScopeUser : string := "user".
Definition ExtensionResourceDefinitionScopeSys : string := "system".

(** [erd] is a pointer and may be nil. *)
Record Validator : Type := mkValidator {
  erd : option ExtensionResourceDefinitionReq
}.

Definition Option : Type := Validator → option error * Validator.

(** [NewValidator] returns at the first option that fails, with the
    validator as it is then. *)
Fixpoint apply_options (opts : list Option) (v : Validator)
  : Validator * option error :=
  match opts with
  | [] => (v, None)
  | opt :: opts' =>
      match opt v with
      | (Some err, v') => (v', Some err)
      | (None, v') => apply_options opts' v'
      end
  end.

Definition empty_ERD : ExtensionResourceDefinitionReq :=
  {| Name := ""; Description := ""; Enabled := None; SlugSingular := "";
     SlugPlural := ""; Version := ""; Scope := ""; Schema := "" |}.

Definition NewValidator (opts : list Option) : Validator * option error :=
  apply_options opts {| erd := Some empty_ERD |}.

Definition WithERD (e : option ExtensionResourceDefinitionReq) : Option :=
  λ _, (None, {| erd := e |}).

(** [content] stands for the result of [content.Unmarshal()], which decodes
    JSON or YAML. *)
Definition WithERDContent
    (content : option ExtensionResourceDefinitionReq * option error) : Option :=
  λ _,
    match content with
    | (e, Some err) =>
        (Some (ErrWrap (Error ErrERDValidationFailed +:+ ": " +:+ Error err)
                 ErrERDValidationFailed),
         {| erd := e |})
    | (e, None) => (None, {| erd := e |})
    end.

Section Validate.
(** [unquote] stands for [json.Unmarshal] of the schema into a string, which
    succeeds when the schema is a JSON string; [compile] stands for the
    JSON-schema compiler of governor-api, made for a plural slug and a
    version and run on the schema text. *)
Variable unquote : string → option string.
Variable compile : string → string → string → option error.

Definition Validate (v : Validator) : option error :=
  match erd v with
  | None => Some (mkValidationErr "ERD is not set in validator")
  | Some e =>
      if String.eqb (Name e) "" then
        Some (mkValidationErr "ERD name is required")
      else if String.eqb (SlugSingular e) "" || String.eqb (SlugPlural e) "" then
        Some (mkValidationErr "ERD slugs are required")
      else if negb (isValidSlug (SlugSingular e))
              || negb (isValidSlug (SlugPlural e)) then
        Some (mkValidationErr "one or both of ERD slugs are invalid")
      else if String.eqb (Version e) "" then
        Some (mkValidationErr "ERD version is required")
      else if negb (bool_decide (is_Some (Enabled e))) then
        Some (mkValidationErr "ERD enabled is required")
      else if String.eqb (Scope e) "" then
        Some (mkValidationErr "ERD scope is required")
      else if negb (String.eqb (Scope e) ExtensionResourceDefinitionScopeUser)
              && negb (String.eqb (Scope e) ExtensionResourceDefinitionScopeSys)
      then
        Some (mkValidationErr "invalid ERD scope, must be either system or user")
      else if String.eqb (Schema e) "" then
        Some (mkValidationErr "ERD schema is required")
      else
        let schema :=
          match unquote (Schema e) with
          | Some text => text
          | None => Schema e
          end in
        match compile (SlugPlural e) (Version e) schema with
        | Some err =>
            Some (ErrWrap (Error ErrERDValidationFailed +:+ ": " +:+ Error err)
                    ErrERDValidationFailed)
        | None => None
        end
  end.

End Validate.

End erdvalidator.

(** ** Package server *)

Module server.

(** [strings.HasPrefix] and [strings.TrimPrefix]. *)
Definition HasPrefix (s prefix : string) : bool := String.prefix prefix s.

Definition TrimPrefix (s prefix : string) : string :=
  if HasPrefix s prefix
  then String.substring (String.length prefix)
         (String.length s - String.length prefix) s
  else s.

(** [ErrNoNATSConnection] of [server/errors.go]. *)
Definition ErrNoNATSConnection : error := ErrOther "no NATS connection".

(** [nats.Msg] and [nats.Subscription], with the fields the client uses. *)
Record Msg : Type := mkMsg {
  Subject : string;
  Header : option (gmap string (list string));
  Data : list Byte.byte
}.

Record Subscription : Type := mkSubscription {
  sub_Subject : string;
  sub_Queue : string
}.

(** [EventMessage] of [server/events.go]. *)
Record EventMessage : Type := mkEventMessage {
  msg_Subject : string;
  msg_Event : Event
}.

(** The NATS connection is external; the client uses its [QueueSubscribe],
    which answers with a subscription or an error. *)
Class Conn (K : Type) : Type := {
  QueueSubscribe : string → string → K → (Subscription + error) * K
}.

(** What a call comes to: it returns, or it panics.  The panic that occurs
    here is the one of a method called on a nil tracer. *)
Inductive outcome (A : Type) : Type :=
| Returned (a : A)
| Panicked.
Arguments Returned {A} _.
Arguments Panicked {A}.

(** [trace.Tracer] is an interface of OpenTelemetry; spans are left out, so
    all that matters of a tracer is whether the field that holds it is
    nil. *)
Record Tracer : Type := mkTracer { tracer_name : string }.

(** [EventClient] of [server/events.go]; [Messages] is a channel and is
    left out, as is [Shutdown]. *)
Class EventClient (EC : Type) : Type := {
  Subscribe : string → EC → outcome (option error * EC)
}.

Section NATSClient.
Context {K : Type} `{!Conn K}.

(** [conn] is a pointer and may be nil; [queueSize] is a Go [int];
    [tracer] is an interface value and may be nil.  The logger is left
    out: [NewNATSClient] sets it, so it is never nil. *)
Record NATSClient : Type := mkNATSClient {
  conn : option K;
  prefix : string;
  queueGroup : string;
  queueSize : Z;
  tracer : option Tracer;
  subscriptions : list Subscription
}.

Definition NATSOption : Type := NATSClient → NATSClient.

(** [NewNATSClient] sets the logger, the subscriptions and the channel of
    messages; the tracer, like the connection, stays nil unless an option
    sets it. *)
Definition NewNATSClient (opts : list NATSOption) : NATSClient :=
  fold_left (λ c opt, opt c) opts
    {| conn := None; prefix := ""; queueGroup := ""; queueSize := 0;
       tracer := None; subscriptions := [] |}.

Definition WithNATSConn (nc : K) : NATSOption :=
  λ c, {| conn := Some nc; prefix := prefix c; queueGroup := queueGroup c;
          queueSize := queueSize c; tracer := tracer c;
          subscriptions := subscriptions c |}.

Definition WithNATSPrefix (p : string) : NATSOption :=
  λ c, {| conn := conn c; prefix := p; queueGroup := queueGroup c;
          queueSize := queueSize c; tracer := tracer c;
          subscriptions := subscriptions c |}.

Definition WithNATSQueueGroup (q : string) (s : Z) : NATSOption :=
  λ c, {| conn := conn c; prefix := prefix c; queueGroup := q;
          queueSize := s; tracer := tracer c;
          subscriptions := subscriptions c |}.

Definition WithNATSTracer (t : option Tracer) : NATSOption :=
  λ c, {| conn := conn c; prefix := prefix c; queueGroup := queueGroup c;
          queueSize := queueSize c; tracer := t;
          subscriptions := subscriptions c |}.

(** The subject a router subject is subscribed under:
    [fmt.Sprintf("%s.%s", c.prefix, subject)]. *)
Definition wire_subject (c : NATSClient) (subject : string) : string :=
  prefix c ++ "." ++ subject.

(** The loop [for i := 0; i < c.queueSize; i++] of [Subscribe], with the
    number of iterations left; it returns at the first error. *)
Fixpoint subscribe_queue (n : nat) (subj queue : string) (k : K)
    (subs : list Subscription) : option error * K * list Subscription :=
  match n with
  | O => (None, k, subs)
  | S n' =>
      match QueueSubscribe subj queue k with
      | (inr err, k') => (Some err, k', subs)
      | (inl subscription, k') =>
          subscribe_queue n' subj queue k' (subs ++ [subscription])
      end
  end.

(** [Subscribe]: after the check of the connection the span is started
    with [c.tracer.Start], which panics on a nil tracer. *)
Definition NATSClient_Subscribe (subject : string) (c : NATSClient)
  : outcome (option error * NATSClient) :=
  match conn c with
  | None => Returned (Some ErrNoNATSConnection, c)
  | Some k =>
      match tracer c with
      | None => Panicked
      | Some _ =>
          let '(err, k', subs) :=
            subscribe_queue (Z.to_nat (queueSize c)) (wire_subject c subject)
              (queueGroup c) k (subscriptions c) in
          Returned
            (err, {| conn := Some k'; prefix := prefix c;
                     queueGroup := queueGroup c; queueSize := queueSize c;
                     tracer := tracer c; subscriptions := subs |})
      end
  end.

#[global] Instance NATSClient_EventClient : EventClient NATSClient :=
  {| Subscribe := NATSClient_Subscribe |}.

(** The message handler that [Subscribe] installs.  [decode] stands for
    [json.Unmarshal] into an event; the result is the message sent on the
    channel of the client, or nothing when the payload does not decode. *)
Definition Subscribe_handler (decode : list Byte.byte → Event + error)
    (c : NATSClient) (msg : Msg) : option EventMessage :=
  match decode (Data msg) with
  | inr _ => None
  | inl event =>
      Some {| msg_Subject := TrimPrefix (Subject msg) (prefix c ++ ".");
              msg_Event := {| Action := Action event;
                              Headers := Header msg;
                              TraceContext := TraceContext event;
                              ExtensionResourceID := ExtensionResourceID event |} |}
  end.

End NATSClient.

Arguments NATSClient : clear implicits.
Arguments NATSOption : clear implicits.

(** [Server.Subscribe]: the subjects of the router are subscribed in turn;
    the first error ends the loop and is returned. *)
Fixpoint Subscribe_subjects {EC : Type} `{!EventClient EC}
    (subjs : list string) (ec : EC) : outcome (option error * EC) :=
  match subjs with
  | [] => Returned (None, ec)
  | subj :: subjs' =>
      match Subscribe subj ec with
      | Panicked => Panicked
      | Returned (Some err, ec') => Returned (Some err, ec')
      | Returned (None, ec') => Subscribe_subjects subjs' ec'
      end
  end.

(** [Status] of the server. *)
Definition StatusUp : string := "UP".
Definition StatusDisabled : string := "DISABLED".
Definition StatusBootstrapping : string := "BOOTSTRAPPING".

(** Modelled from the spec: the client of the governor API and its types
    belong to governor-api.  Of a resource definition that governor lists
    only the singular slug is used. *)
Record ExtensionResourceDefinition : Type := mkERD {
  erd_SlugSingular : string
}.

Class GovernorClient (G Ext : Type) : Type := {
  Extension : string → bool → G → (Ext + error) * G;
  ExtensionResourceDefinitions :
    string → bool → G → (list ExtensionResourceDefinition + error) * G;
  CreateExtensionResourceDefinition :
    string → erdvalidator.ExtensionResourceDefinitionReq → G
    → (ExtensionResourceDefinition + error) * G
}.

(** [Server], without the fields of the HTTP server, the logger and the
    tracer; the tracer of the server is taken to be set, as [Subscribe] and
    [Bootstrap] start a span with it first thing.  An [EventProcessor] is
    given by its [Register], which registers routes on the router. *)
Record Server (C S EC G Ext : Type) : Type := mkServer {
  erdDir : string;
  extensionID : string;
  extension : option Ext;
  governorClient : G;
  eventClient : EC;
  status : string;
  eventRouter : Router C S;
  processors : list (Router C S → Ext → Router C S)
}.
Arguments mkServer {C S EC G Ext} _ _ _ _ _ _ _ _.
Arguments erdDir {C S EC G Ext} _.
Arguments extensionID {C S EC G Ext} _.
Arguments extension {C S EC G Ext} _.
Arguments governorClient {C S EC G Ext} _.
Arguments eventClient {C S EC G Ext} _.
Arguments status {C S EC G Ext} _.
Arguments eventRouter {C S EC G Ext} _.
Arguments processors {C S EC G Ext} _.

Definition Server_Subscribe {C S EC G Ext : Type} `{!EventClient EC}
    (s : Server C S EC G Ext) : outcome (option error * Server C S EC G Ext) :=
  match Subscribe_subjects (Subjects (eventRouter s)) (eventClient s) with
  | Panicked => Panicked
  | Returned (err, ec') =>
      Returned
        (err, {| erdDir := erdDir s; extensionID := extensionID s;
                 extension := extension s; governorClient := governorClient s;
                 eventClient := ec'; status := status s;
                 eventRouter := eventRouter s; processors := processors s |})
  end.

Section Bootstrap.
Context {C S EC G Ext : Type} `{!GovernorClient G Ext}.
(** [readERDsFromLocalDir] reads the files of a directory; it is taken as
    a function of the directory. *)
Variable readERDsFromLocalDir :
  string → list erdvalidator.ExtensionResourceDefinitionReq + error.

(** [listERDsFromGovernor]: the set of the singular slugs governor lists. *)
Definition listERDsFromGovernor (extensionID : string) (g : G)
  : (gset string + error) * G :=
  match ExtensionResourceDefinitions extensionID false g with
  | (inr err, g') => (inr err, g')
  | (inl erds, g') => (inl (list_to_set (map erd_SlugSingular erds)), g')
  end.

(** The loop of [Bootstrap] over the local definitions: one that governor
    lists is passed over, the others are created, and an error of the
    creation is logged and otherwise ignored. *)
Fixpoint create_missing (extensionID : string)
    (localERDs : list erdvalidator.ExtensionResourceDefinitionReq)
    (govERDsSet : gset string) (g : G) : G :=
  match localERDs with
  | [] => g
  | e :: localERDs' =>
      if bool_decide (erdvalidator.SlugSingular e ∈ govERDsSet)
      then create_missing extensionID localERDs' govERDsSet g
      else create_missing extensionID localERDs' govERDsSet
             (snd (CreateExtensionResourceDefinition extensionID e g))
  end.

Definition Bootstrap (s : Server C S EC G Ext)
  : option error * Server C S EC G Ext :=
  let with_client (ext : option Ext) (g : G) (r : Router C S) :=
    {| erdDir := erdDir s; extensionID := extensionID s; extension := ext;
       governorClient := g; eventClient := eventClient s;
       status := StatusBootstrapping; eventRouter := r;
       processors := processors s |} in
  match Extension (extensionID s) false (governorClient s) with
  | (inr err, g1) => (Some err, with_client (extension s) g1 (eventRouter s))
  | (inl ext, g1) =>
      match readERDsFromLocalDir (erdDir s) with
      | inr err => (Some err, with_client (Some ext) g1 (eventRouter s))
      | inl localERDs =>
          match listERDsFromGovernor (extensionID s) g1 with
          | (inr err, g2) =>
              (Some err, with_client (Some ext) g2 (eventRouter s))
          | (inl govERDsSet, g2) =>
              let g3 := create_missing (extensionID s) localERDs govERDsSet g2 in
              let router :=
                fold_left (λ r processor, processor r ext) (processors s)
                  (eventRouter s) in
              (None, with_client (Some ext) g3 router)
          end
      end
  end.

End Bootstrap.

(** A governor client for the examples: it knows the slugs it lists,
    records the slugs it is asked to create and refuses the ones of a given
    set. *)
Record Ledger : Type := mkLedger {
  listed : list string;
  created : list string;
  rejected : gset string
}.

#[global] Instance Ledger_GovernorClient : GovernorClient Ledger string :=
  {| Extension := λ id _ g, (inl id, g);
     ExtensionResourceDefinitions := λ _ _ g,
       (inl (map mkERD (listed g)), g);
     CreateExtensionResourceDefinition := λ _ e g,
       let slug := erdvalidator.SlugSingular e in
       let g' := {| listed := listed g; created := created g ++ [slug];
                    rejected := rejected g |} in
       if bool_decide (slug ∈ rejected g)
       then (inr (ErrOther "conflict"), g')
       else (inl {| erd_SlugSingular := slug |}, g') |}.

(** A connection that accepts every subscription and one that refuses the
    subjects of a given set, for the examples. *)
Record Refusing : Type := mkRefusing { refused : gset string }.

#[global] Instance Refusing_Conn : Conn Refusing :=
  {| QueueSubscribe := λ subj queue k,
       if bool_decide (subj ∈ refused k)
       then (inr (ErrOther "permission denied"), k)
       else (inl {| sub_Subject := subj; sub_Queue := queue |}, k) |}.

End server.

(** *** Further vocabulary: sequences of cache calls and strategies *)

(** The answers of a sequence of [ExistsOrStore] calls, each made at its
    own clock reading. *)
Fixpoint ExistsOrStore_seq {C : Type} `{!HistoryCache C}
    (calls : list (Z * string)) (c : C) : list (bool * option error) :=
  match calls with
  | [] => []
  | (now, id) :: calls' =>
      let '(r, c') := ExistsOrStore now id c in
      r :: ExistsOrStore_seq calls' c'
  end.

(** A call of the history cache interface, and the cache after a sequence
    of calls. *)
Inductive CacheCall : Type :=
| CallExistsOrStore (now : Z) (id : string)
| CallRemove (now : Z) (id : string).

Definition cache_call {C : Type} `{!HistoryCache C} (c : C) (call : CacheCall)
  : C :=
  match call with
  | CallExistsOrStore now id => snd (ExistsOrStore now id c)
  | CallRemove now id => snd (Remove now id c)
  end.

(** The keys of the LRU are distinct and, when the capacity is bounded,
    there are at most as many as the capacity. *)
Definition lru_wf (c : expirable.LRU) : Prop :=
  NoDup (expirable.items c).*1 ∧
  ((0 < expirable.size c)%nat →
   (length (expirable.items c) ≤ expirable.size c)%nat).

(** The skip strategy lists the action with the wildcard or the subject. *)
Definition strategy_lists (p : CorrelationIDProcessor) (action subj : string)
  : bool :=
  match skippableRoutes p !! action with
  | Some subjs => bool_decide ("*" ∈ subjs) || bool_decide (subj ∈ subjs)
  | None => false
  end.

(** The hyphen, a word of lowercase letters and digits, and words joined
    by hyphens. *)
Definition hyphen_char : Ascii.ascii := Ascii.ascii_of_nat 45.

Definition slug_word (l : list Ascii.ascii) : Prop :=
  l ≠ [] ∧ Forall (λ a, erdvalidator.lower_or_digit a = true) l.

Definition hyphenated (w : list Ascii.ascii) (ws : list (list Ascii.ascii))
  : list Ascii.ascii :=
  w ++ concat (map (cons hyphen_char) ws).

(** The actions that have a registration entry point. *)
Definition registrable_actions : list string :=
  [GovernorEventCreate; GovernorEventUpdate; GovernorEventDelete;
   GovernorEventApprove; GovernorEventDeny; GovernorEventRevoke].

(** ** The history cache *)

Section LRU_facts.
Import expirable.

Lemma find_removelast_head key e l :
  l ≠ [] → find key (removelast ((key, e) :: l)) = Some e.
Proof.
  intros Hl. destruct l as [|x l]; [done|].
  cbn [removelast find]. by rewrite String.eqb_refl.
Qed.

Lemma Add_find now key c :
  find key (items (snd (Add now key c))) = Some (now + ttl c)%Z.
Proof.
  unfold Add. destruct (find key (items c)) as [e|] eqn:Hf.
  - cbn. by rewrite String.eqb_refl.
  - cbn zeta. destruct (_ && _) eqn:Hev.
    + cbn [snd items]. apply find_removelast_head.
      apply andb_true_iff in Hev as [H0 H1].
      apply Nat.ltb_lt in H0, H1. cbn [length] in H1.
      destruct (items c); [cbn in H1; lia | done].
    + cbn. by rewrite String.eqb_refl.
Qed.

Lemma Add_ttl now key c : ttl (snd (Add now key c)) = ttl c.
Proof.
  unfold Add. destruct (find key (items c)); [done|].
  cbn zeta. by destruct (_ && _).
Qed.

Lemma Get_not_live now key c :
  live now key c = false → Get now key c = (false, c).
Proof.
  unfold live, Get. destruct (find key (items c)) as [e|]; [|done].
  intros He. apply negb_false_iff in He. by rewrite He.
Qed.

Lemma Get_live now key c : live now key c = true → fst (Get now key c) = true.
Proof.
  unfold live, Get. destruct (find key (items c)) as [e|]; [|done].
  intros He. apply negb_true_iff in He. by rewrite He.
Qed.

End LRU_facts.

(** A fresh id is reported absent by the local cache and is live, with a
    full TTL ahead, afterwards. *)
Lemma LocalCache_ExistsOrStore_fresh now id lc :
  expirable.live now id (cache lc) = false →
  fst (LocalCache_ExistsOrStore now id lc) = (false, None) ∧
  expirable.find id (expirable.items (cache (snd (LocalCache_ExistsOrStore now id lc))))
    = Some (now + expirable.ttl (cache lc))%Z.
Proof.
  intros Hfresh. unfold LocalCache_ExistsOrStore.
  rewrite (Get_not_live _ _ _ Hfresh). cbn.
  split; [done|]. apply Add_find.
Qed.

(** A live id is reported present by the local cache. *)
Lemma LocalCache_ExistsOrStore_live now id lc :
  expirable.live now id (cache lc) = true →
  fst (LocalCache_ExistsOrStore now id lc) = (true, None).
Proof.
  intros Hlive. unfold LocalCache_ExistsOrStore.
  pose proof (Get_live _ _ _ Hlive) as Hg.
  destruct (expirable.Get now id (cache lc)) as [ex c1]. cbn in Hg. by subst.
Qed.

Lemma live_after_fresh now1 now2 id lc :
  expirable.live now1 id (cache lc) = false →
  (now2 ≤ now1 + expirable.ttl (cache lc))%Z →
  expirable.live now2 id (cache (snd (LocalCache_ExistsOrStore now1 id lc))) = true.
Proof.
  intros Hfresh Hle.
  destruct (LocalCache_ExistsOrStore_fresh now1 id lc Hfresh) as [_ Hfind].
  unfold expirable.live. rewrite Hfind.
  apply negb_true_iff, Z.ltb_ge. lia.
Qed.

(** What [NATSCache.ExistsOrStore] answers, by the outcome of the create. *)
Lemma NATSCache_ExistsOrStore_outcome {K : Type} `{!nats.KeyValue K}
    now id (c : NATSCache K) :
  NATSCache_ExistsOrStore now id c =
    (match fst (nats.Create id [] (kv c)) with
     | None => (false, None)
     | Some e => if errors_Is e ErrKeyExists then (true, None) else (false, Some e)
     end, {| kv := snd (nats.Create id [] (kv c)) |}).
Proof.
  unfold NATSCache_ExistsOrStore.
  destruct (nats.Create id [] (kv c)) as [[e|] k']; cbn; [|done].
  by destruct (errors_Is e ErrKeyExists).
Qed.

(** The create of the bucket on an absent and on a present key. *)
Lemma Bucket_Create_fresh key value (b : nats.Bucket) :
  nats.entries b !! key = None → nats.fault b = None →
  nats.Create key value b
    = (None, {| nats.entries := <[key := value]> (nats.entries b);
                nats.fault := None |}).
Proof.
  intros Hk Hf. cbn. unfold nats.Bucket_Create. by rewrite Hf, Hk.
Qed.

Lemma Bucket_Create_present key value (b : nats.Bucket) :
  is_Some (nats.entries b !! key) → nats.fault b = None →
  nats.Create key value b = (Some ErrKeyExists, b).
Proof.
  intros [v Hk] Hf. cbn. unfold nats.Bucket_Create. by rewrite Hf, Hk.
Qed.

(** C4: for a fresh id, two calls of [ExistsOrStore] in sequence answer
    [(false, nil)] and then [(true, nil)], for the local cache (when the
    second call comes before the entry expires) and for the NATS cache
    (when the store does not fail) alike. *)
Theorem ExistsOrStore_twice_fresh :
  (∀ (lc : LocalCache) (now1 now2 : Z) (id : string),
     expirable.live now1 id (cache lc) = false →
     (now2 ≤ now1 + expirable.ttl (cache lc))%Z →
     ExistsOrStore_twice now1 now2 id lc = ((false, None), (true, None))) ∧
  (∀ (b : nats.Bucket) (now1 now2 : Z) (id : string),
     nats.entries b !! id = None →
     nats.fault b = None →
     ExistsOrStore_twice now1 now2 id (NewNATSCache b)
       = ((false, None), (true, None))).
Proof.
  split.
  - intros lc now1 now2 id Hfresh Hle. unfold ExistsOrStore_twice.
    cbn [ExistsOrStore LocalCache_HistoryCache].
    pose proof (LocalCache_ExistsOrStore_fresh now1 id lc Hfresh) as [H1 _].
    pose proof (live_after_fresh now1 now2 id lc Hfresh Hle) as Hlive.
    destruct (LocalCache_ExistsOrStore now1 id lc) as [r1 lc1].
    cbn [fst snd] in *. subst r1.
    pose proof (LocalCache_ExistsOrStore_live now2 id lc1 Hlive) as H2.
    destruct (LocalCache_ExistsOrStore now2 id lc1) as [r2 lc2].
    cbn [fst] in H2. by subst r2.
  - intros b now1 now2 id Hfresh Hok. unfold ExistsOrStore_twice.
    cbn [ExistsOrStore NATSCache_HistoryCache].
    rewrite (NATSCache_ExistsOrStore_outcome now1). cbn [kv NewNATSCache].
    rewrite (Bucket_Create_fresh _ _ _ Hfresh Hok). cbn [fst snd].
    rewrite (NATSCache_ExistsOrStore_outcome now2). cbn [kv].
    rewrite Bucket_Create_present; [done| |done].
    cbn. by rewrite lookup_insert_eq.
Qed.

Lemma ExistsOrStore_twice_fresh_witness :
  ExistsOrStore_twice 0 5 "abc" NewLocalCache = ((false, None), (true, None)) ∧
  ExistsOrStore_twice 0 5 "abc"
    (NewNATSCache {| nats.entries := ∅; nats.fault := None |})
    = ((false, None), (true, None)).
Proof.
  split.
  - apply (proj1 ExistsOrStore_twice_fresh NewLocalCache 0%Z 5%Z "abc").
    + reflexivity.
    + vm_compute. discriminate.
  - apply (proj2 ExistsOrStore_twice_fresh
             {| nats.entries := ∅; nats.fault := None |} 0%Z 5%Z "abc");
      reflexivity.
Defined.

(** C7: the NATS cache answers [(false, nil)] exactly when the create of
    the key succeeds, [(true, nil)] exactly when the create fails with the
    key-exists error, and otherwise returns the error of the store with
    [false]. *)
Theorem NATSCache_ExistsOrStore_create {K : Type} `{!nats.KeyValue K}
    (now : Z) (id : string) (c : NATSCache K) :
  let err := fst (nats.Create id [] (kv c)) in
  let res := fst (NATSCache_ExistsOrStore now id c) in
  (res = (false, None) ↔ err = None) ∧
  (res = (true, None) ↔ ∃ e, err = Some e ∧ errors_Is e ErrKeyExists = true) ∧
  (∀ e, err = Some e → errors_Is e ErrKeyExists = false → res = (false, Some e)).
Proof.
  cbn zeta. rewrite NATSCache_ExistsOrStore_outcome. cbn [fst].
  destruct (fst (nats.Create id [] (kv c))) as [e|].
  - destruct (errors_Is e ErrKeyExists) eqn:His.
    + split_and!; [split; discriminate | | congruence].
      split; [eauto | done].
    + split_and!; [split; discriminate | | congruence].
      split; [discriminate | intros (e' & ? & ?); congruence].
  - split_and!; [done | | discriminate].
    split; [discriminate | intros (e' & ? & ?); discriminate].
Qed.

Lemma NATSCache_ExistsOrStore_create_witness :
  fst (NATSCache_ExistsOrStore 0 "abc"
         (NewNATSCache {| nats.entries := ∅;
                          nats.fault := Some (ErrOther "timeout") |}))
    = (false, Some (ErrOther "timeout")).
Proof.
  apply (proj2 (proj2 (NATSCache_ExistsOrStore_create 0 "abc"
           (NewNATSCache {| nats.entries := ∅;
                            nats.fault := Some (ErrOther "timeout") |})))
           (ErrOther "timeout")); reflexivity.
Defined.

(** ** The router *)

Section Router_facts.
Context {C S : Type} `{!HistoryCache C}.
Implicit Types (r : Router C S) (w : World C S) (ctx : Context) (event : Event).

Lemma Process_not_found r ctx subj event w :
  routes r !! subj = None →
  Process r ctx subj event w = (Some ErrHandlerNotFound, w).
Proof. intros Hr. unfold Process. by rewrite Hr. Qed.

Lemma Process_unbound r ctx subj event w m :
  routes r !! subj = Some m → m !! Action event = None →
  Process r ctx subj event w = (None, w).
Proof. intros Hr Hm. unfold Process. by rewrite Hr, Hm. Qed.

Lemma Process_bound r ctx subj event w m handler :
  routes r !! subj = Some m → m !! Action event = Some handler →
  Process r ctx subj event w
    = mwchain r handler (SaveSubjectToContext ctx subj) event w.
Proof. intros Hr Hm. unfold Process. by rewrite Hr, Hm. Qed.

(** C3: [Process] fails with [ErrHandlerNotFound] on a subject without
    entries, returns [nil] and leaves the world as it is on a registered
    subject whose action has no handler, and otherwise runs the bound
    handler inside the global middleware chain and returns its result. *)
Theorem Process_dispatch r ctx subj event w :
  (routes r !! subj = None →
   Process r ctx subj event w = (Some ErrHandlerNotFound, w)) ∧
  (∀ m, routes r !! subj = Some m → m !! Action event = None →
   Process r ctx subj event w = (None, w)) ∧
  (∀ m handler, routes r !! subj = Some m → m !! Action event = Some handler →
   Process r ctx subj event w
     = mwchain r handler (SaveSubjectToContext ctx subj) event w).
Proof.
  split_and!.
  - apply Process_not_found.
  - intros m. apply Process_unbound.
  - intros m handler. apply Process_bound.
Qed.

(** C10: on a registered subject, an event whose action has no handler
    makes [Process] return [nil] whatever the global middleware chain is,
    so the chain is not run; the world, and with it the history cache, is
    left unchanged. *)
Theorem Process_unbound_skips_chain r ctx subj event w m :
  routes r !! subj = Some m → m !! Action event = None →
  (∀ chain cp,
     Process {| routes := routes r; mwchain := chain;
                correlationIDProcessor := cp |} ctx subj event w = (None, w)) ∧
  histcache (snd (Process r ctx subj event w)) = histcache w.
Proof.
  intros Hr Hm. split.
  - intros chain cp. by apply Process_unbound with m.
  - by rewrite (Process_unbound _ _ _ _ _ m).
Qed.

Lemma Use_chain r (A : Middleware C S) handler :
  mwchain (Use A r) handler = A (mwchain r handler).
Proof. reflexivity. Qed.

Lemma Use_routes r (A : Middleware C S) : routes (Use A r) = routes r.
Proof. reflexivity. Qed.

(** C5: after [Use A] and then [Use B], the chain wraps a handler in [A]
    and the result in [B]; for middlewares given by inbound and outbound
    code, a dispatch runs the inbound code of [B], then that of [A], then
    the handler, then the outbound code of [A], then that of [B]. *)
Theorem Use_is_a_stack r :
  (∀ (A B : Middleware C S) handler,
     mwchain (Use B (Use A r)) handler = B (A (mwchain r handler))) ∧
  (∀ preA postA preB postB ctx subj event w m handler,
     routes r !! subj = Some m → m !! Action event = Some handler →
     Process (Use (around preB postB) (Use (around preA postA) r))
       ctx subj event w
     = let '(e, w') :=
         mwchain r handler (SaveSubjectToContext ctx subj) event (preA (preB w))
       in (e, postB (postA w'))).
Proof.
  split; [done|].
  intros preA postA preB postB ctx subj event w m handler Hr Hm.
  rewrite (Process_bound _ _ _ _ _ m handler); [|done..].
  rewrite !Use_chain. unfold around.
  by destruct (mwchain r handler _ event (preA (preB w))).
Qed.

(** *** The correlation-ID processor *)

Lemma ShouldSkip_error (p : CorrelationIDProcessor) cid action subj w ex e c' :
  ExistsOrStore (clock w) cid (histcache w) = ((ex, Some e), c') →
  ShouldSkip p cid action subj w = ((false, Some e), set_histcache c' w).
Proof. intros Hc. unfold ShouldSkip. by rewrite Hc. Qed.

Lemma ShouldSkip_first_sight (p : CorrelationIDProcessor) cid action subj w c' :
  ExistsOrStore (clock w) cid (histcache w) = ((false, None), c') →
  ShouldSkip p cid action subj w = ((false, None), set_histcache c' w).
Proof. intros Hc. unfold ShouldSkip. by rewrite Hc. Qed.

Lemma ShouldSkip_seen (p : CorrelationIDProcessor) cid action subj w c' :
  ExistsOrStore (clock w) cid (histcache w) = ((true, None), c') →
  ShouldSkip p cid action subj w =
    (match skippableRoutes p !! action with
     | Some subjs => (bool_decide ("*" ∈ subjs) || bool_decide (subj ∈ subjs), None)
     | None => (false, None)
     end, set_histcache c' w).
Proof.
  intros Hc. unfold ShouldSkip. rewrite Hc. cbn.
  destruct (skippableRoutes p !! action) as [subjs|]; [|done].
  by repeat case_bool_decide.
Qed.

(** C6: when [ExistsOrStore] fails, [ShouldSkip] returns its error and the
    middleware returns that error whatever the next handler is, which is
    therefore not run. *)
Theorem cache_error_aborts_chain (p : CorrelationIDProcessor) :
  (∀ cid action subj w ex e c',
     ExistsOrStore (clock w) cid (histcache w) = ((ex, Some e), c') →
     ShouldSkip p cid action subj w = ((false, Some e), set_histcache c' w)) ∧
  (∀ (next : Handler C S) ctx event w ex e c',
     ExistsOrStore (clock w) (event_cid event) (histcache w)
       = ((ex, Some e), c') →
     MWInjectCorrelationID p next ctx event w = (Some e, set_histcache c' w)).
Proof.
  split.
  - intros. by eapply ShouldSkip_error.
  - intros next ctx event w ex e c' Hc. unfold MWInjectCorrelationID, bind.
    by rewrite (ShouldSkip_error _ _ _ _ _ _ _ _ Hc).
Qed.

Lemma UpdateOnly_Update :
  skippableRoutes (NewCorrelationIDProcessor []) !! GovernorEventUpdate
    = Some {[ "*" ]}.
Proof. reflexivity. Qed.

Lemma UpdateOnly_other action :
  action ≠ GovernorEventUpdate →
  skippableRoutes (NewCorrelationIDProcessor []) !! action = None.
Proof.
  intros Hne.
  change (skippableRoutes (NewCorrelationIDProcessor []))
    with ({[ GovernorEventUpdate := {[ "*" ]} ]} : gmap string (gset string)).
  by rewrite lookup_singleton_ne.
Qed.

Lemma UpdateOnly_is_default :
  NewCorrelationIDProcessor [CorrelationIDProcessorWithSkipStrategyUpdateOnly]
    = NewCorrelationIDProcessor [].
Proof. reflexivity. Qed.

Lemma SkipAll_Create :
  skippableRoutes
    (NewCorrelationIDProcessor [CorrelationIDProcessorWithSkipStrategySkipAll])
    !! GovernorEventCreate = Some {[ "*" ]}.
Proof.
  unfold NewCorrelationIDProcessor,
    CorrelationIDProcessorWithSkipStrategySkipAll.
  cbn [fold_left skippableRoutes].
  rewrite lookup_insert_ne by done. by rewrite lookup_insert_eq.
Qed.

(** C9: for a Create event whose correlation ID the cache reports present,
    [ShouldSkip] answers [true] under the SkipAll strategy and [false]
    under the UpdateOnly strategy. *)
Theorem ShouldSkip_Create_seen cid subj w c' :
  ExistsOrStore (clock w) cid (histcache w) = ((true, None), c') →
  ShouldSkip
    (NewCorrelationIDProcessor [CorrelationIDProcessorWithSkipStrategySkipAll])
    cid GovernorEventCreate subj w = ((true, None), set_histcache c' w) ∧
  ShouldSkip
    (NewCorrelationIDProcessor [CorrelationIDProcessorWithSkipStrategyUpdateOnly])
    cid GovernorEventCreate subj w = ((false, None), set_histcache c' w).
Proof.
  intros Hc. split.
  - rewrite (ShouldSkip_seen _ _ _ _ _ _ Hc), SkipAll_Create.
    by rewrite (bool_decide_eq_true_2 ("*" ∈ ({[ "*" ]} : gset string)))
      by set_solver.
  - rewrite (ShouldSkip_seen _ _ _ _ _ _ Hc), UpdateOnly_is_default.
    by rewrite UpdateOnly_other.
Qed.

End Router_facts.

Lemma Process_dispatch_witness :
  let r : Router LocalCache nat :=
    Update "groups" counting_handler [] correlated_router in
  let w := local_world 0%nat in
  Process r Background "users" (sample_event GovernorEventUpdate "abc") w
    = (Some ErrHandlerNotFound, w) ∧
  Process r Background "groups" (sample_event GovernorEventCreate "abc") w
    = (None, w) ∧
  Process r Background "groups" (sample_event GovernorEventUpdate "abc") w
    = mwchain r counting_handler (SaveSubjectToContext Background "groups")
        (sample_event GovernorEventUpdate "abc") w.
Proof.
  intros r w.
  pose (m := {[ GovernorEventUpdate := counting_handler ]}
             : gmap string (Handler LocalCache nat)).
  split_and!.
  - apply (proj1 (Process_dispatch r Background "users"
                    (sample_event GovernorEventUpdate "abc") w)).
    reflexivity.
  - apply (proj1 (proj2 (Process_dispatch r Background "groups"
                    (sample_event GovernorEventCreate "abc") w)) m);
      reflexivity.
  - apply (proj2 (proj2 (Process_dispatch r Background "groups"
                    (sample_event GovernorEventUpdate "abc") w)) m);
      reflexivity.
Defined.

Lemma Process_unbound_skips_chain_witness :
  let r : Router LocalCache nat :=
    Update "groups" counting_handler [] correlated_router in
  let w := local_world 0%nat in
  histcache (snd (Process r Background "groups"
                    (sample_event GovernorEventCreate "abc") w))
    = NewLocalCache.
Proof.
  intros r w.
  apply (Process_unbound_skips_chain r Background "groups"
           (sample_event GovernorEventCreate "abc") w
           {[ GovernorEventUpdate := counting_handler ]});
    reflexivity.
Defined.

Lemma Use_is_a_stack_witness :
  let r : Router LocalCache (list string) :=
    Update "groups" marking_handler [] (NewRouter []) in
  let A := around (mark "A in") (mark "A out") in
  let B := around (mark "B in") (mark "B out") in
  user (snd (Process (Use B (Use A r)) Background "groups"
               (sample_event GovernorEventUpdate "abc") (local_world [])))
    = ["B in"; "A in"; "handler"; "A out"; "B out"].
Proof.
  intros r A B. unfold A, B.
  rewrite (proj2 (Use_is_a_stack r)
             (mark "A in") (mark "A out") (mark "B in") (mark "B out")
             Background "groups" (sample_event GovernorEventUpdate "abc")
             (local_world []) {[ GovernorEventUpdate := marking_handler ]}
             marking_handler);
    reflexivity.
Defined.

Lemma cache_error_aborts_chain_witness :
  MWInjectCorrelationID (NewCorrelationIDProcessor []) counting_handler
    (SaveSubjectToContext Background "groups")
    (sample_event GovernorEventUpdate "abc") failing_world
    = (Some (ErrOther "timeout"), failing_world).
Proof.
  apply (proj2 (cache_error_aborts_chain (NewCorrelationIDProcessor []))
           counting_handler (SaveSubjectToContext Background "groups")
           (sample_event GovernorEventUpdate "abc") failing_world
           false (ErrOther "timeout") (histcache failing_world)).
  reflexivity.
Defined.

Lemma ShouldSkip_Create_seen_witness :
  let w : World LocalCache nat :=
    {| clock := 5;
       histcache := snd (ExistsOrStore 0 "abc" NewLocalCache);
       user := 0%nat |} in
  fst (ShouldSkip
         (NewCorrelationIDProcessor [CorrelationIDProcessorWithSkipStrategySkipAll])
         "abc" GovernorEventCreate "groups" w) = (true, None) ∧
  fst (ShouldSkip
         (NewCorrelationIDProcessor [CorrelationIDProcessorWithSkipStrategyUpdateOnly])
         "abc" GovernorEventCreate "groups" w) = (false, None).
Proof.
  intros w.
  assert (Hseen : ExistsOrStore (clock w) "abc" (histcache w)
                  = ((true, None), snd (ExistsOrStore 5 "abc" (histcache w))))
    by reflexivity.
  destruct (ShouldSkip_Create_seen "abc" "groups" w _ Hseen) as [Hall Honly].
  rewrite Hall, Honly. split; reflexivity.
Defined.

(** *** Loop suppression with the local cache *)

Section Local_cache_scenarios.
Context {S : Type}.
Implicit Types (r : Router LocalCache S) (w : World LocalCache S).

Lemma eqb_empty_false (s : string) : s ≠ "" → String.eqb s "" = false.
Proof. intros Hs. by apply String.eqb_neq. Qed.

(** The middleware on the first sight of a correlation ID: the ID is
    recorded and the next handler runs with the ID in its context. *)
Lemma MWInjectCorrelationID_first_sight (p : CorrelationIDProcessor)
    (next : Handler LocalCache S) ctx event w :
  expirable.live (clock w) (event_cid event) (cache (histcache w)) = false →
  MWInjectCorrelationID p next ctx event w
    = next (InjectCorrelationID ctx (event_cid event)) event
        (set_histcache
           (snd (ExistsOrStore (clock w) (event_cid event) (histcache w))) w).
Proof.
  intros Hfresh. unfold MWInjectCorrelationID, bind.
  destruct (LocalCache_ExistsOrStore_fresh _ _ _ Hfresh) as [Hres _].
  rewrite (ShouldSkip_first_sight p _ _ _ w
             (snd (ExistsOrStore (clock w) (event_cid event) (histcache w)))).
  - by rewrite !andb_false_r.
  - cbn [ExistsOrStore LocalCache_HistoryCache].
    destruct (LocalCache_ExistsOrStore _ _ _) as [res c']. cbn in Hres.
    by subst res.
Qed.

(** The middleware on an Update event whose correlation ID is live in the
    cache, under the default strategy and with a subject in the context. *)
Lemma MWInjectCorrelationID_seen_update (next : Handler LocalCache S)
    ctx event w :
  Action event = GovernorEventUpdate →
  GetSubjectFromContext ctx ≠ "" → event_cid event ≠ "" →
  expirable.live (clock w) (event_cid event) (cache (histcache w)) = true →
  MWInjectCorrelationID (NewCorrelationIDProcessor []) next ctx event w
    = (None,
       set_histcache
         (snd (ExistsOrStore (clock w) (event_cid event) (histcache w))) w).
Proof.
  intros Hact Hsubj Hcid Hlive. unfold MWInjectCorrelationID, bind.
  pose proof (LocalCache_ExistsOrStore_live _ _ _ Hlive) as Hres.
  rewrite (ShouldSkip_seen _ _ _ _ w
             (snd (ExistsOrStore (clock w) (event_cid event) (histcache w)))).
  - rewrite Hact, UpdateOnly_Update.
    rewrite (bool_decide_eq_true_2 ("*" ∈ ({[ "*" ]} : gset string)))
      by set_solver.
    by rewrite (eqb_empty_false _ Hsubj), (eqb_empty_false _ Hcid).
  - cbn [ExistsOrStore LocalCache_HistoryCache].
    destruct (LocalCache_ExistsOrStore _ _ _) as [res c']. cbn in Hres.
    by subst res.
Qed.

(** C1, as amended: with the UpdateOnly strategy and the local cache, on a
    router whose global chain is exactly the correlation middleware and
    whose Update handler is registered on a non-empty subject and does not
    change the cache, the first delivery of an Update event with a fresh
    non-empty correlation ID runs the handler once and returns its result;
    the second delivery, made before the entry expires, returns [nil] and
    only touches the cache. *)
Theorem UpdateOnly_second_delivery_skipped r m (h : Handler LocalCache S)
    ctx subj event w :
  (∀ handler,
     mwchain r handler
       = MWInjectCorrelationID (NewCorrelationIDProcessor []) handler) →
  routes r !! subj = Some m →
  m !! GovernorEventUpdate = Some h →
  Action event = GovernorEventUpdate →
  subj ≠ "" →
  event_cid event ≠ "" →
  expirable.live (clock w) (event_cid event) (cache (histcache w)) = false →
  (∀ c e w0, histcache (snd (h c e w0)) = histcache w0) →
  let cid := event_cid event in
  let ctx1 := InjectCorrelationID (SaveSubjectToContext ctx subj) cid in
  let w1 := set_histcache (snd (ExistsOrStore (clock w) cid (histcache w))) w in
  let first := h ctx1 event w1 in
  (clock (snd first) ≤ clock w + expirable.ttl (cache (histcache w)))%Z →
  Process r ctx subj event w = first ∧
  Process r ctx subj event (snd first)
    = (None,
       set_histcache
         (snd (ExistsOrStore (clock (snd first)) cid (histcache (snd first))))
         (snd first)).
Proof.
  intros Hchain Hr Hm Hact Hsubj Hcid Hfresh Hframe cid ctx1 w1 first Hclock.
  assert (Hm' : m !! Action event = Some h) by by rewrite Hact.
  split.
  - rewrite (Process_bound _ _ _ _ _ m h Hr Hm'), Hchain.
    by rewrite MWInjectCorrelationID_first_sight.
  - rewrite (Process_bound _ _ _ _ _ m h Hr Hm'), Hchain.
    apply MWInjectCorrelationID_seen_update; [done..|].
    unfold first. rewrite Hframe. unfold w1. cbn [histcache set_histcache].
    by apply live_after_fresh.
Qed.

End Local_cache_scenarios.

Lemma UpdateOnly_second_delivery_skipped_witness :
  let r : Router LocalCache nat :=
    Update "groups" counting_handler [] correlated_router in
  let event := sample_event GovernorEventUpdate "abc" in
  let first := Process r Background "groups" event (local_world 0%nat) in
  fst first = Some (ErrOther "handler ran") ∧
  user (snd first) = 1%nat ∧
  fst (Process r Background "groups" event (snd first)) = None ∧
  user (snd (Process r Background "groups" event (snd first))) = 1%nat.
Proof.
  intros r event first.
  destruct (UpdateOnly_second_delivery_skipped r
              {[ GovernorEventUpdate := counting_handler ]} counting_handler
              Background "groups" event (local_world 0%nat))
    as [Hfirst Hsecond]; try reflexivity; try discriminate.
  unfold first. rewrite Hfirst. split_and!; [reflexivity..| |].
  - rewrite Hsecond. reflexivity.
  - rewrite Hsecond. reflexivity.
Defined.

(** The claim C1 holds under the conditions of the theorem only; each of
    them is needed.  On the empty subject the second delivery runs the
    handler again.  With the correlation middleware a second time in the
    global chain the first delivery does not run the handler.  With an ID
    the cache already holds the first delivery is skipped.  With a handler
    that takes longer than the TTL, or one that removes the ID from the
    cache, the second delivery runs the handler again. *)
Lemma second_delivery_counterexamples :
  let ran := Some (ErrOther "handler ran") in
  let event := sample_event GovernorEventUpdate "abc" in
  deliver_twice (Update "" counting_handler [] correlated_router)
    "" event (local_world 0%nat)
    = ((ran, 1%nat), (ran, 2%nat)) ∧
  deliver_twice
    (Update "groups" counting_handler []
       (Use (MWInjectCorrelationID (NewCorrelationIDProcessor []))
          correlated_router))
    "groups" event (local_world 0%nat)
    = ((None, 0%nat), (None, 0%nat)) ∧
  deliver_twice (Update "groups" counting_handler [] correlated_router)
    "groups" event
    {| clock := 1; histcache := snd (ExistsOrStore 0 "abc" NewLocalCache);
       user := 0%nat |}
    = ((None, 0%nat), (None, 0%nat)) ∧
  deliver_twice (Update "groups" slow_handler [] correlated_router)
    "groups" event (local_world 0%nat)
    = ((ran, 1%nat), (ran, 2%nat)) ∧
  deliver_twice (Update "groups" forgetful_handler [] correlated_router)
    "groups" event (local_world 0%nat)
    = ((ran, 1%nat), (ran, 2%nat)).
Proof. vm_compute. done. Qed.

(** *** Events without a correlation ID *)

(** The middleware on an event without correlation ID: [ShouldSkip] is
    called with the empty ID, and its answer is only used for the error. *)
Lemma MWInjectCorrelationID_empty_cid {C S : Type} `{!HistoryCache C}
    (p : CorrelationIDProcessor) (next : Handler C S) ctx event
    (w : World C S) :
  event_cid event = "" →
  MWInjectCorrelationID p next ctx event w =
    let '((_, err), c') := ExistsOrStore (clock w) "" (histcache w) in
    match err with
    | Some e => (Some e, set_histcache c' w)
    | None => next (InjectCorrelationID ctx "") event (set_histcache c' w)
    end.
Proof.
  intros Hcid. unfold MWInjectCorrelationID, bind, ShouldSkip. rewrite Hcid.
  destruct (ExistsOrStore (clock w) "" (histcache w)) as [[ex [e|]] c'];
    [done|].
  destruct ex; cbn [negb]; [|by rewrite andb_false_r].
  destruct (skippableRoutes p !! Action event) as [subjs|];
    [|by rewrite andb_false_r].
  repeat case_bool_decide; by rewrite ?andb_false_r.
Qed.

(** C2, as amended: on an event whose correlation ID is empty or absent the
    middleware never takes the skip branch, whatever the strategy and
    whether or not the cache knows the empty ID: when the call of
    [ExistsOrStore], made with the empty ID, reports no error, the next
    handler is run with the empty ID in its context and its result is
    returned. *)
Theorem empty_cid_never_skipped {C S : Type} `{!HistoryCache C}
    (p : CorrelationIDProcessor) (next : Handler C S) ctx event
    (w : World C S) (ex : bool) (c' : C) :
  event_cid event = "" →
  ExistsOrStore (clock w) "" (histcache w) = ((ex, None), c') →
  MWInjectCorrelationID p next ctx event w
    = next (InjectCorrelationID ctx "") event (set_histcache c' w).
Proof.
  intros Hcid Hcache.
  rewrite (MWInjectCorrelationID_empty_cid p next ctx event w Hcid).
  by rewrite Hcache.
Qed.

(** Under the SkipAll strategy, a second event without correlation ID still
    reaches the handler although the cache holds the empty ID by then. *)
Lemma empty_cid_never_skipped_witness :
  let p :=
    NewCorrelationIDProcessor [CorrelationIDProcessorWithSkipStrategySkipAll] in
  let ctx := SaveSubjectToContext Background "groups" in
  let event := sample_event GovernorEventUpdate "" in
  let w : World LocalCache nat :=
    {| clock := 5;
       histcache := snd (ExistsOrStore 0 "" NewLocalCache);
       user := 1%nat |} in
  fst (ExistsOrStore (clock w) "" (histcache w)) = (true, None) ∧
  fst (MWInjectCorrelationID p counting_handler ctx event w)
    = Some (ErrOther "handler ran") ∧
  user (snd (MWInjectCorrelationID p counting_handler ctx event w)) = 2%nat.
Proof.
  intros p ctx event w. split; [reflexivity|].
  rewrite (empty_cid_never_skipped p counting_handler ctx event w true
             (snd (ExistsOrStore 5 "" (histcache w))));
    [split| |]; reflexivity.
Defined.

(** The claim C2 fails on the code: the middleware calls [ShouldSkip], and
    with it [ExistsOrStore], before it looks at the correlation ID.  So the
    empty ID is recorded in the cache, and when the cache fails the next
    handler is not run. *)
Lemma empty_cid_is_recorded :
  let event := sample_event GovernorEventUpdate "" in
  let ctx := SaveSubjectToContext Background "groups" in
  let p := NewCorrelationIDProcessor [] in
  let after := MWInjectCorrelationID p counting_handler ctx event
                 (local_world 0%nat) in
  event_cid event = "" ∧
  expirable.items (cache (histcache (local_world 0%nat))) = [] ∧
  expirable.items (cache (histcache (snd after))) = [("", defaultTTL)] ∧
  MWInjectCorrelationID p counting_handler ctx event failing_world
    = (Some (ErrOther "timeout"), failing_world).
Proof. vm_compute. done. Qed.

(** ** The route table *)

Section Route_table.
Context {C S : Type}.
Implicit Types (r : Router C S) (c : Registration C S)
  (calls : list (Registration C S)).

Lemma bound_addRoute action subj (h : Handler C S) mws r s a :
  bound (addRoute action subj h mws r) s a =
    if String.eqb subj s && String.eqb action a
    then Some (fold_left (λ h' (mw : Middleware C S), mw h') mws h)
    else bound r s a.
Proof.
  unfold bound, addRoute. cbn [routes].
  destruct (String.eqb_spec subj s) as [->|Hs]; cbn [andb].
  - rewrite lookup_insert_eq.
    destruct (String.eqb_spec action a) as [->|Ha].
    + by rewrite lookup_insert_eq.
    + rewrite lookup_insert_ne by done.
      by destruct (routes r !! s).
  - by rewrite lookup_insert_ne.
Qed.

Lemma routes_addRoute action subj (h : Handler C S) mws r s :
  is_Some (routes (addRoute action subj h mws r) !! s)
  ↔ subj = s ∨ is_Some (routes r !! s).
Proof.
  unfold addRoute. cbn [routes].
  destruct (decide (subj = s)) as [->|Hs].
  - rewrite lookup_insert_eq. split; [by left | by eexists].
  - rewrite lookup_insert_ne by done. split; [by right | by intros [?|?]].
Qed.

Lemma bound_register r c s a :
  bound (register r c) s a =
    match registered_route c with
    | Some (a', s', h) =>
        if String.eqb s' s && String.eqb a' a then Some h else bound r s a
    | None => bound r s a
    end.
Proof. destruct c; cbn [register registered_route]; by try apply bound_addRoute. Qed.

Lemma routes_register r c s :
  is_Some (routes (register r c) !! s)
  ↔ (∃ a h, registered_route c = Some (a, s, h)) ∨ is_Some (routes r !! s).
Proof.
  destruct c; cbn [register registered_route];
    try (unfold Create, Update, Delete, Approve, Deny, Revoke;
         rewrite routes_addRoute; split;
         [ intros [->|?]; [left; by eexists _, _ | by right]
         | intros [(a & h' & ?)|?]; [left; by simplify_eq | by right] ]).
  unfold Use, applyGlobalMiddleware. cbn [routes].
  split; [by right | by intros [(? & ? & ?)|?]].
Qed.

(** Every subject of the table has an action bound: [addRoute] creates the
    inner map of a subject only to store a handler in it. *)
Definition inhabited_subjects r : Prop :=
  ∀ s, is_Some (routes r !! s) → ∃ a, is_Some (bound r s a).

Lemma inhabited_subjects_register r c :
  inhabited_subjects r → inhabited_subjects (register r c).
Proof.
  intros Hinv s [Hreg|Hold]%routes_register.
  - destruct Hreg as (a & h & Hc). exists a.
    rewrite bound_register, Hc, !String.eqb_refl. by eexists.
  - destruct (Hinv s Hold) as (a & h & Ha). exists a.
    rewrite bound_register. destruct (registered_route c) as [[[a' s'] h']|].
    + destruct (_ && _); [by eexists|]. rewrite Ha. by eexists.
    + rewrite Ha. by eexists.
Qed.

Lemma inhabited_subjects_fold calls r :
  inhabited_subjects r → inhabited_subjects (fold_left register calls r).
Proof.
  revert r. induction calls as [|c calls IH]; intros r Hinv; [done|].
  cbn [fold_left]. by apply IH, inhabited_subjects_register.
Qed.

Lemma bound_fold calls r s a :
  bound (fold_left register calls r) s a =
    match last_registration calls s a with
    | Some h => Some h
    | None => bound r s a
    end.
Proof.
  revert r. induction calls as [|c calls IH]; intros r; [done|].
  cbn [fold_left last_registration]. rewrite IH.
  destruct (last_registration calls s a) as [h|]; [done|].
  rewrite bound_register.
  destruct (registered_route c) as [[[a' s'] h']|]; [|done].
  by destruct (_ && _).
Qed.

Lemma last_registration_registered calls s a :
  is_Some (last_registration calls s a) ↔ registered calls s a.
Proof.
  unfold registered. induction calls as [|c calls IH].
  - cbn. split; [by intros [? ?]|]. intros (c & h & Hc & _).
    by apply elem_of_nil in Hc.
  - cbn [last_registration].
    destruct (last_registration calls s a) as [h|] eqn:Hlast.
    + split; [|by eexists]. intros _.
      destruct (proj1 IH) as (c' & h' & Hin & Hc'); [by eexists|].
      exists c', h'. split; [by apply elem_of_cons; right|done].
    + split.
      * destruct (registered_route c) as [[[a' s'] h']|] eqn:Hc;
          [|by intros [? ?]].
        destruct (String.eqb_spec s' s) as [->|]; [|by intros [? ?]].
        destruct (String.eqb_spec a' a) as [->|]; [|by intros [? ?]].
        intros _. exists c, h'. split; [by apply elem_of_cons; left|done].
      * intros (c' & h' & Hin & Hc').
        apply elem_of_cons in Hin as [->|Hin].
        -- rewrite Hc', !String.eqb_refl. by eexists.
        -- destruct (proj2 IH) as [? ?]; [by exists c', h'|done].
Qed.

Lemma Subjects_routes r s : s ∈ Subjects r ↔ is_Some (routes r !! s).
Proof.
  unfold Subjects. rewrite list_elem_of_fmap. split.
  - intros ([s' m] & -> & Hin). apply elem_of_map_to_list in Hin.
    by exists m.
  - intros [m Hm]. exists (s, m). split; [done|].
    by apply elem_of_map_to_list.
Qed.

(** C8: after any sequence of registrations on a router that starts with
    an empty table, [Subjects] holds exactly the subjects for which some
    call registered an action, and the table binds to each subject and
    action the handler of the last call that registered them. *)
Theorem Subjects_and_last_write r0 calls :
  routes r0 = ∅ →
  let r := fold_left register calls r0 in
  (∀ subj, subj ∈ Subjects r ↔ ∃ action, registered calls subj action) ∧
  (∀ subj action, bound r subj action = last_registration calls subj action).
Proof.
  intros Hempty r.
  assert (Hnone : ∀ s a, bound r0 s a = None).
  { intros s a. unfold bound. by rewrite Hempty, lookup_empty. }
  assert (Hbound : ∀ s a, bound r s a = last_registration calls s a).
  { intros s a. unfold r. rewrite bound_fold, Hnone.
    by destruct (last_registration calls s a). }
  split; [|done].
  intros subj. rewrite Subjects_routes. split.
  - intros Hsome.
    destruct (inhabited_subjects_fold calls r0) with (s := subj)
      as (a & Ha); [|done|].
    + intros s. rewrite Hempty, lookup_empty. by intros [? ?].
    + exists a. apply last_registration_registered. by rewrite <- Hbound.
  - intros (a & Hreg). apply last_registration_registered in Hreg.
    rewrite <- Hbound in Hreg. unfold bound in Hreg.
    destruct (routes r !! subj); [by eexists|by destruct Hreg].
Qed.

End Route_table.

Lemma Subjects_and_last_write_witness :
  let calls : list (Registration LocalCache nat) :=
    [RegCreate "groups" idle_handler [];
     RegUpdate "users" counting_handler [];
     RegCreate "groups" counting_handler []] in
  let r := fold_left register calls correlated_router in
  "groups" ∈ Subjects r ∧
  bound r "groups" GovernorEventCreate = Some counting_handler ∧
  bound r "groups" GovernorEventUpdate = None.
Proof.
  intros calls r.
  assert (Hempty : routes (correlated_router (C := LocalCache) (S := nat)) = ∅)
    by reflexivity.
  destruct (Subjects_and_last_write correlated_router calls Hempty)
    as [Hsubj Hbound].
  split_and!.
  - apply Hsubj. exists GovernorEventCreate.
    exists (RegCreate "groups" counting_handler []), counting_handler.
    split; [|reflexivity].
    apply elem_of_cons; right. apply elem_of_cons; right.
    apply elem_of_cons; by left.
  - exact (Hbound "groups" GovernorEventCreate).
  - exact (Hbound "groups" GovernorEventUpdate).
Defined.

(** ** More on the local cache *)

Section LRU_invariant.
Import expirable.
Implicit Types (l : list (string * Z)) (c : LRU).

Lemma find_None_keys key l : find key l = None ↔ key ∉ l.*1.
Proof.
  induction l as [|[k e] l IH]; cbn.
  - split; [intros _; apply not_elem_of_nil | done].
  - destruct (String.eqb_spec k key) as [->|Hne].
    + split; [done|]. intros Hnot. destruct Hnot. apply elem_of_cons. by left.
    + rewrite IH, not_elem_of_cons. naive_solver.
Qed.

Lemma find_Some_keys key e l : find key l = Some e → key ∈ l.*1.
Proof.
  intros Hf. destruct (decide (key ∈ l.*1)) as [|Hnot]; [done|].
  apply find_None_keys in Hnot. congruence.
Qed.

Lemma unlink_keys key l k : k ∈ (unlink key l).*1 → k ∈ l.*1.
Proof.
  induction l as [|[k' e] l IH]; cbn; [done|].
  destruct (String.eqb k' key).
  - intros Hin. apply elem_of_cons. by right.
  - cbn. rewrite !elem_of_cons. naive_solver.
Qed.

Lemma unlink_NoDup key l : NoDup l.*1 → NoDup (unlink key l).*1.
Proof.
  induction l as [|[k e] l IH]; cbn; [done|].
  intros [Hk Hl]%NoDup_cons. destruct (String.eqb k key); [done|].
  cbn. apply NoDup_cons. split; [|by apply IH].
  intros Hin. by apply Hk, (unlink_keys key).
Qed.

Lemma unlink_absent key l : NoDup l.*1 → find key (unlink key l) = None.
Proof.
  induction l as [|[k e] l IH]; cbn; [done|].
  intros [Hk Hl]%NoDup_cons. destruct (String.eqb_spec k key) as [->|Hne].
  - by apply find_None_keys.
  - cbn. destruct (String.eqb_spec k key); [done|]. by apply IH.
Qed.

Lemma unlink_other key l k : k ≠ key → find k (unlink key l) = find k l.
Proof.
  intros Hne. induction l as [|[k' e] l IH]; cbn; [done|].
  destruct (String.eqb_spec k' key) as [->|Hk'].
  - destruct (String.eqb_spec key k); [by subst|done].
  - cbn. by rewrite IH.
Qed.

Lemma unlink_length key e l :
  find key l = Some e → S (length (unlink key l)) = length l.
Proof.
  induction l as [|[k e'] l IH]; cbn; [done|].
  destruct (String.eqb k key); [done|]. cbn. intros Hf. by rewrite IH.
Qed.

Lemma removelast_keys l k : k ∈ (removelast l).*1 → k ∈ l.*1.
Proof.
  induction l as [|x l IH]; [done|].
  destruct l as [|y l]; [by intros ?%elem_of_nil|].
  change (removelast (x :: y :: l)) with (x :: removelast (y :: l)).
  rewrite !(fmap_cons _ x), !(elem_of_cons _ k (x.1)).
  intros [->|Hin]; [by left|]. right. by apply IH.
Qed.

Lemma removelast_NoDup l : NoDup l.*1 → NoDup (removelast l).*1.
Proof.
  induction l as [|x l IH]; [done|]. destruct l as [|y l]; [by constructor|].
  change (removelast (x :: y :: l)) with (x :: removelast (y :: l)).
  rewrite !(fmap_cons _ x). intros [Hx Hl]%NoDup_cons.
  apply NoDup_cons. split; [|by apply IH].
  intros Hin. by apply Hx, removelast_keys.
Qed.

Lemma removelast_length l : l ≠ [] → S (length (removelast l)) = length l.
Proof.
  induction l as [|x l IH]; [done|]. intros _.
  destruct l as [|y l]; [done|].
  change (removelast (x :: y :: l)) with (x :: removelast (y :: l)).
  cbn [length]. by rewrite IH.
Qed.

Lemma moved_to_front_wf key e c :
  lru_wf c → find key (items c) = Some e → ∀ e',
  lru_wf {| size := size c; ttl := ttl c;
            items := (key, e') :: unlink key (items c) |}.
Proof.
  intros [Hnd Hlen] Hf e'. split; cbn.
  - apply NoDup_cons. split; [|by apply unlink_NoDup].
    apply find_None_keys. by apply unlink_absent.
  - rewrite (unlink_length key e _ Hf). done.
Qed.

Lemma Get_wf now key c : lru_wf c → lru_wf (snd (Get now key c)).
Proof.
  intros Hwf. unfold Get. destruct (find key (items c)) as [e|] eqn:Hf; [|done].
  destruct (e <? now)%Z; [done|]. by apply moved_to_front_wf with e.
Qed.

Lemma Add_wf now key c : lru_wf c → lru_wf (snd (Add now key c)).
Proof.
  intros Hwf. unfold Add. destruct (find key (items c)) as [e|] eqn:Hf.
  - by apply moved_to_front_wf with e.
  - destruct Hwf as [Hnd Hlen]. apply find_None_keys in Hf. cbn zeta.
    assert (Hnd' : NoDup ((key, (now + ttl c)%Z) :: items c).*1).
    { cbn. by apply NoDup_cons. }
    destruct (_ && _) eqn:Hev; cbn [snd].
    + apply andb_true_iff in Hev as [H0 H1].
      apply Nat.ltb_lt in H0, H1. split; cbn [items size].
      * by apply removelast_NoDup.
      * intros _. pose proof (removelast_length
          ((key, (now + ttl c)%Z) :: items c)) as Hrl.
        cbn [length] in *. specialize (Hlen H0). specialize (Hrl ltac:(done)).
        lia.
    + split; cbn [items size]; [done|]. intros H0.
      apply andb_false_iff in Hev as [Hev|Hev].
      * apply Nat.ltb_ge in Hev. lia.
      * apply Nat.ltb_ge in Hev. done.
Qed.

Lemma Remove_wf key c : lru_wf c → lru_wf (snd (expirable.Remove key c)).
Proof.
  intros Hwf. unfold expirable.Remove.
  destruct (find key (items c)) as [e|] eqn:Hf; [|done].
  destruct Hwf as [Hnd Hlen]. split; cbn.
  - by apply unlink_NoDup.
  - intros H0. specialize (Hlen H0).
    pose proof (unlink_length key e _ Hf). lia.
Qed.

Lemma Get_size now key c : size (snd (Get now key c)) = size c.
Proof.
  unfold Get. destruct (find key (items c)); [|done]. by destruct (_ <? _)%Z.
Qed.

Lemma Add_size now key c : size (snd (Add now key c)) = size c.
Proof.
  unfold Add. destruct (find key (items c)); [done|].
  cbn zeta. by destruct (_ && _).
Qed.

Lemma Remove_size key c : size (snd (expirable.Remove key c)) = size c.
Proof. unfold expirable.Remove. by destruct (find key (items c)). Qed.

End LRU_invariant.

Lemma LocalCache_call_wf (lc : LocalCache) (call : CacheCall) :
  lru_wf (cache lc) → lru_wf (cache (cache_call lc call)).
Proof.
  intros Hwf. destruct call as [now id|now id]; cbn.
  - unfold LocalCache_ExistsOrStore.
    pose proof (Get_wf now id _ Hwf) as Hg.
    destruct (expirable.Get now id (cache lc)) as [ex c1]. cbn in *.
    destruct ex; cbn; [done|]. by apply Add_wf.
  - by apply Remove_wf.
Qed.

Lemma LocalCache_call_size (lc : LocalCache) (call : CacheCall) :
  expirable.size (cache (cache_call lc call)) = expirable.size (cache lc).
Proof.
  destruct call as [now id|now id]; cbn.
  - unfold LocalCache_ExistsOrStore.
    pose proof (Get_size now id (cache lc)) as Hg.
    destruct (expirable.Get now id (cache lc)) as [ex c1]. cbn in *.
    destruct ex; cbn; [done|]. by rewrite Add_size.
  - apply Remove_size.
Qed.

(** X1: whatever calls are made on a new local cache, it never holds more
    than [defaultCacheSize] ids and never holds an id twice. *)
Theorem LocalCache_bounded (calls : list CacheCall) :
  let lc := fold_left cache_call calls NewLocalCache in
  (length (expirable.items (cache lc)) ≤ defaultCacheSize)%nat ∧
  NoDup (expirable.items (cache lc)).*1.
Proof.
  cbn zeta.
  assert (Hinv : ∀ lc,
    lru_wf (cache lc) → expirable.size (cache lc) = defaultCacheSize →
    lru_wf (cache (fold_left cache_call calls lc)) ∧
    expirable.size (cache (fold_left cache_call calls lc)) = defaultCacheSize).
  { induction calls as [|call calls IH]; intros lc Hwf Hsz; [done|].
    cbn [fold_left]. apply IH.
    - by apply LocalCache_call_wf.
    - by rewrite LocalCache_call_size. }
  destruct (Hinv NewLocalCache) as [[Hnd Hlen] Hsz].
  - split; cbn; [constructor | lia].
  - done.
  - split; [|done]. rewrite <- Hsz. apply Hlen. rewrite Hsz.
    unfold defaultCacheSize. lia.
Qed.

(** A fresh id is absent again once its TTL has run out. *)
Lemma expired_after_fresh now1 now2 id lc :
  expirable.live now1 id (cache lc) = false →
  (now1 + expirable.ttl (cache lc) < now2)%Z →
  expirable.live now2 id (cache (snd (LocalCache_ExistsOrStore now1 id lc)))
    = false.
Proof.
  intros Hfresh Hlt.
  destruct (LocalCache_ExistsOrStore_fresh now1 id lc Hfresh) as [_ Hfind].
  unfold expirable.live. rewrite Hfind.
  apply negb_false_iff, Z.ltb_lt. lia.
Qed.

Lemma LocalCache_ExistsOrStore_not_live now id lc :
  expirable.live now id (cache lc) = false →
  fst (LocalCache_ExistsOrStore now id lc) = (false, None).
Proof. intros Hfresh. by apply LocalCache_ExistsOrStore_fresh. Qed.

(** X2: the local cache remembers a fresh id for exactly its TTL: a second
    call finds the id if and only if it comes no later than the TTL after
    the first one. *)
Theorem LocalCache_window (lc : LocalCache) (now1 now2 : Z) (id : string) :
  expirable.live now1 id (cache lc) = false →
  ExistsOrStore_seq [(now1, id); (now2, id)] lc
    = [(false, None);
       (bool_decide (now2 ≤ now1 + expirable.ttl (cache lc))%Z, None)].
Proof.
  intros Hfresh. cbn [ExistsOrStore_seq ExistsOrStore LocalCache_HistoryCache].
  pose proof (LocalCache_ExistsOrStore_not_live now1 id lc Hfresh) as H1.
  pose proof (live_after_fresh now1 now2 id lc Hfresh) as Hin.
  pose proof (expired_after_fresh now1 now2 id lc Hfresh) as Hout.
  destruct (LocalCache_ExistsOrStore now1 id lc) as [r1 lc1].
  cbn [fst snd] in *. subst r1.
  case_bool_decide as Hle.
  - pose proof (LocalCache_ExistsOrStore_live now2 id lc1 (Hin Hle)) as H2.
    destruct (LocalCache_ExistsOrStore now2 id lc1) as [r2 lc2].
    cbn [fst] in H2. by subst r2.
  - pose proof (LocalCache_ExistsOrStore_not_live now2 id lc1
                  (Hout ltac:(lia))) as H2.
    destruct (LocalCache_ExistsOrStore now2 id lc1) as [r2 lc2].
    cbn [fst] in H2. by subst r2.
Qed.

Lemma LocalCache_window_witness :
  ExistsOrStore_seq [(0%Z, "abc"); (defaultTTL + 1, "abc")%Z] NewLocalCache
    = [(false, None); (false, None)].
Proof.
  rewrite (LocalCache_window NewLocalCache 0 (defaultTTL + 1) "abc");
    reflexivity.
Defined.

(** A hit moves the entry to the front and keeps its expiry. *)
Lemma LocalCache_ExistsOrStore_hit now id lc e :
  expirable.find id (expirable.items (cache lc)) = Some e →
  (now ≤ e)%Z →
  fst (LocalCache_ExistsOrStore now id lc) = (true, None) ∧
  expirable.find id
    (expirable.items (cache (snd (LocalCache_ExistsOrStore now id lc))))
    = Some e.
Proof.
  intros Hf Hle. unfold LocalCache_ExistsOrStore, expirable.Get. rewrite Hf.
  destruct (Z.ltb_spec e now) as [|_]; [lia|]. cbn.
  by rewrite String.eqb_refl.
Qed.

(** X3: a sighting of a known id does not renew it: the id expires one TTL
    after it was stored, however often it was seen in between. *)
Theorem LocalCache_hit_keeps_expiry (lc : LocalCache) (now1 now2 now3 : Z)
    (id : string) :
  expirable.live now1 id (cache lc) = false →
  (now2 ≤ now1 + expirable.ttl (cache lc))%Z →
  (now1 + expirable.ttl (cache lc) < now3)%Z →
  ExistsOrStore_seq [(now1, id); (now2, id); (now3, id)] lc
    = [(false, None); (true, None); (false, None)].
Proof.
  intros Hfresh Hle Hlt.
  cbn [ExistsOrStore_seq ExistsOrStore LocalCache_HistoryCache].
  destruct (LocalCache_ExistsOrStore_fresh now1 id lc Hfresh) as [H1 Hf1].
  destruct (LocalCache_ExistsOrStore now1 id lc) as [r1 lc1].
  cbn [fst snd] in *. subst r1.
  destruct (LocalCache_ExistsOrStore_hit now2 id lc1 _ Hf1 Hle) as [H2 Hf2].
  destruct (LocalCache_ExistsOrStore now2 id lc1) as [r2 lc2].
  cbn [fst snd] in *. subst r2.
  assert (Hdead : expirable.live now3 id (cache lc2) = false).
  { unfold expirable.live. rewrite Hf2. apply negb_false_iff, Z.ltb_lt. lia. }
  pose proof (LocalCache_ExistsOrStore_not_live now3 id lc2 Hdead) as H3.
  destruct (LocalCache_ExistsOrStore now3 id lc2) as [r3 lc3].
  cbn [fst] in H3. by subst r3.
Qed.

Lemma LocalCache_hit_keeps_expiry_witness :
  ExistsOrStore_seq
    [(0%Z, "abc"); (defaultTTL, "abc"); (defaultTTL + 1, "abc")%Z]
    NewLocalCache
    = [(false, None); (true, None); (false, None)].
Proof.
  apply (LocalCache_hit_keeps_expiry NewLocalCache 0 defaultTTL
           (defaultTTL + 1) "abc"); [reflexivity| |reflexivity].
  vm_compute. discriminate.
Defined.

(** X4: [Remove] never fails on the local cache and makes the id fresh
    again; on the NATS cache it returns what the delete of the store
    returns, and after a successful delete on the bucket the id is fresh
    again. *)
Theorem Remove_makes_fresh :
  (∀ (lc : LocalCache) (now1 now2 : Z) (id : string),
     lru_wf (cache lc) →
     fst (Remove now1 id lc) = None ∧
     fst (ExistsOrStore now2 id (snd (Remove now1 id lc))) = (false, None)) ∧
  (∀ (K : Type) `(!nats.KeyValue K) (c : NATSCache K) (now : Z) (id : string),
     fst (Remove now id c) = fst (nats.Delete id (kv c))) ∧
  (∀ (b : nats.Bucket) (now1 now2 : Z) (id : string),
     nats.fault b = None →
     fst (Remove now1 id (NewNATSCache b)) = None ∧
     fst (ExistsOrStore now2 id (snd (Remove now1 id (NewNATSCache b))))
       = (false, None)).
Proof.
  split_and!.
  - intros lc now1 now2 id [Hnd _]. split; [done|].
    cbn [ExistsOrStore Remove LocalCache_HistoryCache].
    apply LocalCache_ExistsOrStore_not_live.
    unfold LocalCache_Remove, expirable.live, expirable.Remove. cbn [snd cache].
    destruct (expirable.find id (expirable.items (cache lc))) as [e|] eqn:Hf.
    + cbn [snd expirable.items]. by rewrite unlink_absent.
    + cbn [snd]. by rewrite Hf.
  - intros K HK c now id. cbn [Remove NATSCache_HistoryCache].
    unfold NATSCache_Remove. by destruct (nats.Delete id (kv c)).
  - intros b now1 now2 id Hok.
    cbn [Remove ExistsOrStore NATSCache_HistoryCache].
    unfold NATSCache_Remove. cbn [kv NewNATSCache nats.Delete nats.Bucket_KeyValue].
    unfold nats.Bucket_Delete. rewrite Hok. cbn [fst snd]. split; [done|].
    rewrite NATSCache_ExistsOrStore_outcome. cbn [kv fst].
    rewrite Bucket_Create_fresh; [done| |done].
    cbn. apply lookup_delete_eq.
Qed.

Lemma Remove_makes_fresh_witness :
  let seen := snd (ExistsOrStore 0 "abc" NewLocalCache) in
  fst (ExistsOrStore 1 "abc" seen) = (true, None) ∧
  fst (ExistsOrStore 1 "abc" (snd (Remove 1 "abc" seen))) = (false, None) ∧
  fst (ExistsOrStore 1 "abc"
         (snd (Remove 1 "abc"
                 (NewNATSCache {| nats.entries := {[ "abc" := [] ]};
                                  nats.fault := None |}))))
    = (false, None).
Proof.
  intros seen. split; [reflexivity|]. split.
  - apply (proj1 Remove_makes_fresh seen 1%Z 1%Z "abc").
    apply (LocalCache_call_wf NewLocalCache (CallExistsOrStore 0 "abc")).
    split; cbn; [constructor | intros _; unfold defaultCacheSize; lia].
  - apply (proj2 (proj2 Remove_makes_fresh)
             {| nats.entries := {[ "abc" := [] ]}; nats.fault := None |}
             1%Z 1%Z "abc").
    reflexivity.
Defined.

Lemma find_app_other key k e l :
  k ≠ key → expirable.find k (l ++ [(key, e)]) = expirable.find k l.
Proof.
  intros Hne. induction l as [|[k' e'] l IH]; cbn.
  - destruct (String.eqb_spec key k); [by subst|done].
  - by rewrite IH.
Qed.

Lemma removelast_snoc {A : Type} (x y : A) (l : list A) :
  removelast (x :: l ++ [y]) = x :: l.
Proof.
  change (x :: l ++ [y]) with ((x :: l) ++ [y]).
  by rewrite removelast_last.
Qed.

(** X5: storing a fresh id into a full local cache evicts the least
    recently used id, and only that one: it is absent afterwards, the new
    id is held, the number of ids stays at the capacity and every other id
    keeps its entry. *)
Theorem LocalCache_evicts_oldest (lc : LocalCache) (now : Z) (id oldest : string)
    (e : Z) :
  lru_wf (cache lc) →
  (0 < expirable.size (cache lc))%nat →
  length (expirable.items (cache lc)) = expirable.size (cache lc) →
  expirable.find id (expirable.items (cache lc)) = None →
  last (expirable.items (cache lc)) = Some (oldest, e) →
  let lc' := snd (ExistsOrStore now id lc) in
  expirable.find oldest (expirable.items (cache lc')) = None ∧
  expirable.find id (expirable.items (cache lc'))
    = Some (now + expirable.ttl (cache lc))%Z ∧
  length (expirable.items (cache lc')) = expirable.size (cache lc) ∧
  (∀ k, k ≠ oldest → k ≠ id →
     expirable.find k (expirable.items (cache lc'))
       = expirable.find k (expirable.items (cache lc))).
Proof.
  intros [Hnd _] Hpos Hfull Hfresh Hlast.
  apply last_Some in Hlast as [init Hitems].
  assert (Hne : oldest ≠ id).
  { intros ->. apply find_None_keys in Hfresh. apply Hfresh.
    rewrite Hitems, fmap_app. apply elem_of_app. right.
    apply elem_of_cons. by left. }
  cbn zeta. cbn [ExistsOrStore LocalCache_HistoryCache].
  unfold LocalCache_ExistsOrStore, expirable.Get, expirable.Add.
  rewrite Hfresh. cbn [negb snd expirable.items]. rewrite Hfresh. cbn zeta.
  assert (Hev : ((0 <? expirable.size (cache lc))%nat &&
                 (expirable.size (cache lc) <?
                  length ((id, (now + expirable.ttl (cache lc))%Z)
                          :: expirable.items (cache lc)))%nat) = true).
  { apply andb_true_iff. split; apply Nat.ltb_lt; cbn [length]; lia. }
  rewrite Hev. cbn [snd cache expirable.items].
  rewrite Hitems, removelast_snoc. rewrite Hitems in Hnd, Hfull.
  rewrite fmap_app in Hnd. apply NoDup_app in Hnd as (_ & Hdisj & _).
  split_and!.
  - cbn. destruct (String.eqb_spec id oldest) as [->|_]; [done|].
    apply find_None_keys. intros Hin. apply (Hdisj _ Hin).
    apply elem_of_cons. by left.
  - cbn. by rewrite String.eqb_refl.
  - rewrite <- Hfull, length_app. cbn. lia.
  - intros k Hk Hid. cbn. destruct (String.eqb_spec id k) as [->|_]; [done|].
    by rewrite find_app_other.
Qed.

Lemma LocalCache_evicts_oldest_witness :
  let lc := {| cache := {| expirable.size := 2; expirable.ttl := 10;
                           expirable.items := [("b", 11%Z); ("a", 10%Z)] |} |} in
  let lc' := snd (ExistsOrStore 2 "c" lc) in
  expirable.find "a" (expirable.items (cache lc')) = None ∧
  expirable.find "b" (expirable.items (cache lc')) = Some 11%Z.
Proof.
  intros lc lc'.
  destruct (LocalCache_evicts_oldest lc 2 "c" "a" 10) as (Ha & _ & _ & Hb);
    try reflexivity.
  - split; cbn; [|lia]. apply (NoDup_cons_2 "b" ["a"]); [set_solver|].
    apply NoDup_singleton.
  - cbn. lia.
  - split; [exact Ha|]. exact (Hb "b" ltac:(discriminate) ltac:(discriminate)).
Defined.

(** ** More on the correlation-ID processor *)

Section Correlation_contract.
Context {C S : Type} `{!HistoryCache C}.
Implicit Types (p : CorrelationIDProcessor) (next : Handler C S)
  (w : World C S) (ctx : Context) (event : Event).

(** The middleware, given the answer of [ShouldSkip]. *)
Lemma MWInjectCorrelationID_answer p next ctx event w skip w' :
  ShouldSkip p (event_cid event) (Action event) (GetSubjectFromContext ctx) w
    = ((skip, None), w') →
  MWInjectCorrelationID p next ctx event w =
    if negb (String.eqb (GetSubjectFromContext ctx) "")
       && negb (String.eqb (event_cid event) "") && skip
    then (None, w')
    else next (InjectCorrelationID ctx (event_cid event)) event w'.
Proof.
  intros Hs. unfold MWInjectCorrelationID, bind. rewrite Hs.
  by destruct (_ && _ && _).
Qed.

Lemma ShouldSkip_answer p cid action subj w ex c' :
  ExistsOrStore (clock w) cid (histcache w) = ((ex, None), c') →
  ShouldSkip p cid action subj w
    = ((ex && strategy_lists p action subj, None), set_histcache c' w).
Proof.
  intros Hc. destruct ex.
  - rewrite (ShouldSkip_seen _ _ _ _ _ _ Hc). unfold strategy_lists.
    by destruct (skippableRoutes p !! action).
  - by rewrite (ShouldSkip_first_sight _ _ _ _ _ _ Hc).
Qed.

(** X6: when the cache answers without error, the middleware skips the
    event exactly if the ID was already known, subject and ID are not
    empty, and the strategy lists the action with the wildcard or with the
    subject; in every other case the next handler runs with the ID in its
    context. *)
Theorem MWInjectCorrelationID_contract p next ctx event w ex c' :
  ExistsOrStore (clock w) (event_cid event) (histcache w) = ((ex, None), c') →
  MWInjectCorrelationID p next ctx event w =
    if ex && negb (String.eqb (GetSubjectFromContext ctx) "")
          && negb (String.eqb (event_cid event) "")
          && strategy_lists p (Action event) (GetSubjectFromContext ctx)
    then (None, set_histcache c' w)
    else next (InjectCorrelationID ctx (event_cid event)) event
           (set_histcache c' w).
Proof.
  intros Hc.
  rewrite (MWInjectCorrelationID_answer p next ctx event w _ _
             (ShouldSkip_answer p _ _ _ w ex c' Hc)).
  destruct ex; cbn [andb]; [|by rewrite !andb_false_r].
  by destruct (negb _ && negb _), (strategy_lists _ _ _).
Qed.

Lemma SkipAll_lookup action :
  skippableRoutes
    (NewCorrelationIDProcessor [CorrelationIDProcessorWithSkipStrategySkipAll])
    !! action
  = if bool_decide (action ∈ registrable_actions) then Some {[ "*" ]} else None.
Proof.
  unfold NewCorrelationIDProcessor,
    CorrelationIDProcessorWithSkipStrategySkipAll, registrable_actions.
  cbn [fold_left skippableRoutes].
  case_bool_decide as Hin.
  - repeat (apply elem_of_cons in Hin as [->|Hin];
            [by repeat (rewrite lookup_insert_ne by done);
                rewrite lookup_insert_eq|]).
    by apply elem_of_nil in Hin.
  - repeat (rewrite lookup_insert_ne;
            [|intros <-; apply Hin; set_solver]).
    apply lookup_empty.
Qed.

(** X7: under the UpdateOnly strategy an event whose action is not Update
    is never skipped, also when its correlation ID is known to the cache. *)
Theorem UpdateOnly_spares_other_actions next ctx event w ex c' :
  Action event ≠ GovernorEventUpdate →
  ExistsOrStore (clock w) (event_cid event) (histcache w) = ((ex, None), c') →
  MWInjectCorrelationID (NewCorrelationIDProcessor []) next ctx event w
    = next (InjectCorrelationID ctx (event_cid event)) event
        (set_histcache c' w).
Proof.
  intros Hact Hc.
  rewrite (MWInjectCorrelationID_answer _ next ctx event w _ _
             (ShouldSkip_answer _ _ _ _ w ex c' Hc)).
  unfold strategy_lists. rewrite (UpdateOnly_other _ Hact).
  by rewrite !andb_false_r.
Qed.

(** X8: under the SkipAll strategy an event with a known correlation ID is
    skipped for each of the six actions, provided subject and ID are not
    empty; an event with any other action is not skipped. *)
Theorem SkipAll_skips_the_six_actions next ctx event w c' :
  let p := NewCorrelationIDProcessor
             [CorrelationIDProcessorWithSkipStrategySkipAll] in
  GetSubjectFromContext ctx ≠ "" →
  event_cid event ≠ "" →
  ExistsOrStore (clock w) (event_cid event) (histcache w)
    = ((true, None), c') →
  MWInjectCorrelationID p next ctx event w =
    if bool_decide (Action event ∈ registrable_actions)
    then (None, set_histcache c' w)
    else next (InjectCorrelationID ctx (event_cid event)) event
           (set_histcache c' w).
Proof.
  intros p Hsubj Hcid Hc. unfold p.
  rewrite (MWInjectCorrelationID_answer _ next ctx event w _ _
             (ShouldSkip_answer _ _ _ _ w true c' Hc)).
  unfold strategy_lists. rewrite SkipAll_lookup.
  rewrite (proj2 (String.eqb_neq _ _) Hsubj), (proj2 (String.eqb_neq _ _) Hcid).
  cbn [andb negb]. case_bool_decide; [|done].
  by rewrite (bool_decide_eq_true_2 ("*" ∈ ({[ "*" ]} : gset string)))
    by set_solver.
Qed.

End Correlation_contract.

Lemma MWInjectCorrelationID_contract_witness :
  let p := NewCorrelationIDProcessor
    [CorrelationIDProcessorWithSkipStrategyCustom
       {[ GovernorEventCreate := {[ "groups" ]} ]}] in
  let w : World LocalCache nat :=
    {| clock := 5; histcache := snd (ExistsOrStore 0 "abc" NewLocalCache);
       user := 0%nat |} in
  fst (MWInjectCorrelationID p counting_handler
         (SaveSubjectToContext Background "groups")
         (sample_event GovernorEventCreate "abc") w) = None ∧
  fst (MWInjectCorrelationID p counting_handler
         (SaveSubjectToContext Background "users")
         (sample_event GovernorEventCreate "abc") w)
    = Some (ErrOther "handler ran").
Proof.
  intros p w.
  assert (Hseen : ExistsOrStore (clock w) "abc" (histcache w)
                  = ((true, None), snd (ExistsOrStore 5 "abc" (histcache w))))
    by reflexivity.
  split.
  - rewrite (MWInjectCorrelationID_contract p counting_handler
               (SaveSubjectToContext Background "groups")
               (sample_event GovernorEventCreate "abc") w true _ Hseen).
    reflexivity.
  - rewrite (MWInjectCorrelationID_contract p counting_handler
               (SaveSubjectToContext Background "users")
               (sample_event GovernorEventCreate "abc") w true _ Hseen).
    reflexivity.
Defined.

Lemma UpdateOnly_spares_other_actions_witness :
  let w : World LocalCache nat :=
    {| clock := 5; histcache := snd (ExistsOrStore 0 "abc" NewLocalCache);
       user := 0%nat |} in
  fst (MWInjectCorrelationID (NewCorrelationIDProcessor []) counting_handler
         (SaveSubjectToContext Background "groups")
         (sample_event GovernorEventDelete "abc") w)
    = Some (ErrOther "handler ran").
Proof.
  intros w.
  rewrite (UpdateOnly_spares_other_actions counting_handler
             (SaveSubjectToContext Background "groups")
             (sample_event GovernorEventDelete "abc") w true
             (snd (ExistsOrStore 5 "abc" (histcache w))));
    [reflexivity|discriminate|reflexivity].
Defined.

Lemma SkipAll_skips_the_six_actions_witness :
  let p := NewCorrelationIDProcessor
             [CorrelationIDProcessorWithSkipStrategySkipAll] in
  let w : World LocalCache nat :=
    {| clock := 5; histcache := snd (ExistsOrStore 0 "abc" NewLocalCache);
       user := 0%nat |} in
  fst (MWInjectCorrelationID p counting_handler
         (SaveSubjectToContext Background "groups")
         (sample_event GovernorEventRevoke "abc") w) = None ∧
  fst (MWInjectCorrelationID p counting_handler
         (SaveSubjectToContext Background "groups")
         (sample_event "ARCHIVE" "abc") w) = Some (ErrOther "handler ran").
Proof.
  intros p w. unfold p.
  assert (Hseen : ExistsOrStore (clock w) "abc" (histcache w)
                  = ((true, None), snd (ExistsOrStore 5 "abc" (histcache w))))
    by reflexivity.
  split.
  - rewrite (SkipAll_skips_the_six_actions counting_handler
               (SaveSubjectToContext Background "groups")
               (sample_event GovernorEventRevoke "abc") w _
               ltac:(discriminate) ltac:(discriminate) Hseen).
    reflexivity.
  - rewrite (SkipAll_skips_the_six_actions counting_handler
               (SaveSubjectToContext Background "groups")
               (sample_event "ARCHIVE" "abc") w _
               ltac:(discriminate) ltac:(discriminate) Hseen).
    reflexivity.
Defined.

(** ** More on the router *)

Section Router_composition.
Context {C S : Type} `{!HistoryCache C}.
Implicit Types (r : Router C S) (w : World C S) (ctx : Context) (event : Event).

Lemma bound_addRoute_same action subj (h : Handler C S) mws r :
  routes (addRoute action subj h mws r) !! subj
    = Some (<[ action := fold_left (λ h' (mw : Middleware C S), mw h') mws h ]>
              (default ∅ (routes r !! subj))).
Proof.
  unfold addRoute. cbn [routes]. rewrite lookup_insert_eq.
  by destruct (routes r !! subj).
Qed.

(** X9: the middlewares given with a route are applied in the order given,
    so the last one is outermost, and the global chain wraps them all; it
    makes no difference whether a global middleware is added before or
    after the route.  For middlewares [A; B] on the route and a global
    middleware [G], a dispatch runs the inbound code of [G], [B], [A], the
    handler, and the outbound code of [A], [B], [G]. *)
Theorem route_middlewares_inside_global action subj (h : Handler C S)
    ctx event w :
  Action event = action →
  (∀ r mws,
     Process (addRoute action subj h mws r) ctx subj event w
       = mwchain r (fold_left (λ h' (mw : Middleware C S), mw h') mws h)
           (SaveSubjectToContext ctx subj) event w) ∧
  (∀ r mws (G : Middleware C S),
     Use G (addRoute action subj h mws r) = addRoute action subj h mws (Use G r)) ∧
  (∀ preG postG preA postA preB postB,
     Process (Use (around preG postG)
                (addRoute action subj h
                   [around preA postA; around preB postB] (NewRouter [])))
       ctx subj event w
     = let '(e, w') :=
         h (SaveSubjectToContext ctx subj) event (preA (preB (preG w))) in
       (e, postG (postB (postA w')))).
Proof.
  intros Hact.
  assert (Hgen : ∀ r mws,
    Process (addRoute action subj h mws r) ctx subj event w
      = mwchain r (fold_left (λ h' (mw : Middleware C S), mw h') mws h)
          (SaveSubjectToContext ctx subj) event w).
  { intros r mws.
    rewrite (Process_bound (addRoute action subj h mws r) ctx subj event w _
               (fold_left (λ h' (mw : Middleware C S), mw h') mws h)
               (bound_addRoute_same action subj h mws r)); [done|].
    rewrite Hact. apply lookup_insert_eq. }
  split_and!; [done|done|].
  intros preG postG preA postA preB postB.
  change (Use (around preG postG)
            (addRoute action subj h [around preA postA; around preB postB]
               (NewRouter [])))
    with (addRoute action subj h [around preA postA; around preB postB]
            (Use (around preG postG) (NewRouter []))).
  rewrite Hgen. cbn. unfold around.
  by destruct (h (SaveSubjectToContext ctx subj) event (preA (preB (preG w)))).
Qed.

End Router_composition.

Lemma route_middlewares_inside_global_witness :
  let r : Router LocalCache (list string) :=
    Use (around (mark "G in") (mark "G out"))
      (Update "groups" marking_handler
         [around (mark "A in") (mark "A out");
          around (mark "B in") (mark "B out")] (NewRouter [])) in
  user (snd (Process r Background "groups"
               (sample_event GovernorEventUpdate "abc") (local_world [])))
    = ["G in"; "B in"; "A in"; "handler"; "A out"; "B out"; "G out"].
Proof.
  intros r. unfold r, Update.
  rewrite (proj2 (proj2 (route_middlewares_inside_global GovernorEventUpdate
             "groups" marking_handler Background
             (sample_event GovernorEventUpdate "abc") (local_world [])
             eq_refl))).
  reflexivity.
Defined.

Section Registrable_actions.
Context {C S : Type} `{!HistoryCache C}.
Implicit Types (r : Router C S) (calls : list (Registration C S)).

Lemma registered_action calls subj action :
  registered calls subj action → action ∈ registrable_actions.
Proof.
  intros (c & h & _ & Hc). unfold registrable_actions.
  destruct c; cbn in Hc; simplify_eq; set_solver.
Qed.

(** X12: only the six actions with a registration entry point are ever
    bound: on a router built from an empty table by registration calls, an
    event with any other action reaches no handler and no middleware;
    [Process] leaves the world as it is and returns [nil], or
    [ErrHandlerNotFound] when the subject is unknown. *)
Theorem other_actions_are_never_dispatched r0 calls ctx subj event
    (w : World C S) :
  routes r0 = ∅ →
  Action event ∉ registrable_actions →
  let r := fold_left register calls r0 in
  bound r subj (Action event) = None ∧
  Process r ctx subj event w
    = (if bool_decide (subj ∈ Subjects r) then None
       else Some ErrHandlerNotFound, w).
Proof.
  intros Hempty Hact r.
  assert (Hb : bound r subj (Action event) = None).
  { unfold r. rewrite bound_fold.
    destruct (last_registration calls subj (Action event)) as [h|] eqn:Hl.
    - destruct Hact. apply (registered_action calls subj).
      apply last_registration_registered. by eexists.
    - unfold bound. by rewrite Hempty, lookup_empty. }
  split; [done|]. unfold bound in Hb.
  case_bool_decide as Hs; rewrite Subjects_routes in Hs.
  - destruct Hs as [m Hm]. rewrite Hm in Hb.
    by apply Process_unbound with m.
  - apply Process_not_found. by apply eq_None_not_Some.
Qed.

End Registrable_actions.

Lemma other_actions_are_never_dispatched_witness :
  let r : Router LocalCache nat :=
    fold_left register [RegUpdate "groups" counting_handler []]
      correlated_router in
  Process r Background "groups" (sample_event "ARCHIVE" "abc")
    (local_world 0%nat) = (None, local_world 0%nat).
Proof.
  intros r.
  apply (other_actions_are_never_dispatched correlated_router
           [RegUpdate "groups" counting_handler []] Background "groups"
           (sample_event "ARCHIVE" "abc") (local_world 0%nat)).
  - reflexivity.
  - vm_compute. intros Hin.
    repeat (apply elem_of_cons in Hin as [Hin|Hin]; [discriminate|]).
    by apply elem_of_nil in Hin.
Defined.

(** ** Echo suppression across subjects and actions *)

Section Echo.
Context {S : Type}.
Implicit Types (r : Router LocalCache S) (w : World LocalCache S).

(** X13: with the UpdateOnly strategy and the local cache, on a router
    whose global chain is exactly the correlation middleware: an event with
    a fresh non-empty correlation ID that is dispatched to a bound handler,
    of any action and on any subject, which does not change the cache, is
    processed and makes its ID known; an Update event with a bound handler
    on any non-empty subject that carries the same ID and is delivered
    before the entry expires is skipped, its handler not run. *)
Theorem echo_update_is_suppressed r m1 m2 (h1 h2 : Handler LocalCache S)
    ctx subj1 subj2 event1 event2 w :
  (∀ handler,
     mwchain r handler
       = MWInjectCorrelationID (NewCorrelationIDProcessor []) handler) →
  routes r !! subj1 = Some m1 →
  m1 !! Action event1 = Some h1 →
  routes r !! subj2 = Some m2 →
  m2 !! GovernorEventUpdate = Some h2 →
  Action event2 = GovernorEventUpdate →
  subj2 ≠ "" →
  event_cid event1 ≠ "" →
  event_cid event2 = event_cid event1 →
  expirable.live (clock w) (event_cid event1) (cache (histcache w)) = false →
  (∀ c e w0, histcache (snd (h1 c e w0)) = histcache w0) →
  let cid := event_cid event1 in
  let w1 := set_histcache (snd (ExistsOrStore (clock w) cid (histcache w))) w in
  let first :=
    h1 (InjectCorrelationID (SaveSubjectToContext ctx subj1) cid) event1 w1 in
  (clock (snd first) ≤ clock w + expirable.ttl (cache (histcache w)))%Z →
  Process r ctx subj1 event1 w = first ∧
  Process r ctx subj2 event2 (snd first)
    = (None,
       set_histcache
         (snd (ExistsOrStore (clock (snd first)) cid (histcache (snd first))))
         (snd first)).
Proof.
  intros Hchain Hr1 Hm1 Hr2 Hm2 Hact Hsubj Hcid Hsame Hfresh Hframe
    cid w1 first Hclock.
  assert (Hm2' : m2 !! Action event2 = Some h2) by by rewrite Hact.
  split.
  - rewrite (Process_bound _ _ _ _ _ m1 h1 Hr1 Hm1), Hchain.
    by rewrite MWInjectCorrelationID_first_sight.
  - rewrite (Process_bound _ _ _ _ _ m2 h2 Hr2 Hm2'), Hchain.
    unfold cid. rewrite <- Hsame.
    apply MWInjectCorrelationID_seen_update; [done|done|congruence|].
    rewrite Hsame. unfold first. rewrite Hframe. unfold w1.
    cbn [histcache set_histcache]. by apply live_after_fresh.
Qed.

End Echo.

Lemma echo_update_is_suppressed_witness :
  let r : Router LocalCache nat :=
    Update "groups" counting_handler []
      (Create "users" counting_handler [] correlated_router) in
  let first := Process r Background "users"
                 (sample_event GovernorEventCreate "abc") (local_world 0%nat) in
  let second := Process r Background "groups"
                  (sample_event GovernorEventUpdate "abc") (snd first) in
  fst first = Some (ErrOther "handler ran") ∧
  fst second = None ∧
  user (snd second) = 1%nat.
Proof.
  intros r first second.
  destruct (echo_update_is_suppressed r
              {[ GovernorEventCreate := counting_handler ]}
              {[ GovernorEventUpdate := counting_handler ]}
              counting_handler counting_handler Background "users" "groups"
              (sample_event GovernorEventCreate "abc")
              (sample_event GovernorEventUpdate "abc") (local_world 0%nat))
    as [Hfirst Hsecond]; try reflexivity; try discriminate.
  unfold second, first. rewrite Hfirst, Hsecond.
  split_and!; reflexivity.
Defined.

(** ** The NATS client and the subscriptions of the server *)

Section Strings.

Lemma substring_all (s : string) : String.substring 0 (String.length s) s = s.
Proof. induction s as [|a s IH]; cbn; [done|]. by rewrite IH. Qed.

Lemma prefix_empty (s : string) : String.prefix "" s = true.
Proof. by destruct s. Qed.

Lemma prefix_append (p s : string) : String.prefix p (p +:+ s) = true.
Proof.
  induction p as [|a p IH].
  - apply prefix_empty.
  - change (String a p +:+ s) with (String a (p +:+ s)). cbn.
    by destruct (Ascii.ascii_dec a a).
Qed.

Lemma TrimPrefix_append (p s : string) : server.TrimPrefix (p +:+ s) p = s.
Proof.
  unfold server.TrimPrefix, server.HasPrefix. rewrite prefix_append.
  induction p as [|a p IH].
  - change ("" +:+ s) with s. cbn. rewrite Nat.sub_0_r. apply substring_all.
  - change (String a p +:+ s) with (String a (p +:+ s)). cbn. apply IH.
Qed.

Lemma append_assoc (p q s : string) : (p +:+ q) +:+ s = p +:+ (q +:+ s).
Proof.
  induction p as [|a p IH]; [done|].
  change ((String a p +:+ q) +:+ s) with (String a ((p +:+ q) +:+ s)).
  by rewrite IH.
Qed.

End Strings.

Section NATSClient_facts.
Context {K : Type} `{!server.Conn K}.
Implicit Types (c : server.NATSClient K) (k : K).

(** A connection answers a subscription with the subject and the queue it
    was asked for. *)
Definition faithful_conn : Prop :=
  ∀ subj queue k subscription k',
    server.QueueSubscribe subj queue k = (inl subscription, k') →
    subscription = {| server.sub_Subject := subj; server.sub_Queue := queue |}.

Lemma subscribe_queue_spec (Hconn : faithful_conn) n subj queue k subs :
  ∃ m, (m ≤ n)%nat ∧
    snd (server.subscribe_queue n subj queue k subs)
      = subs ++ replicate m {| server.sub_Subject := subj;
                               server.sub_Queue := queue |} ∧
    (fst (fst (server.subscribe_queue n subj queue k subs)) = None → m = n).
Proof.
  revert k subs. induction n as [|n IH]; intros k subs; cbn.
  - exists 0%nat. split_and!; [done| |done]. by rewrite app_nil_r.
  - destruct (server.QueueSubscribe subj queue k) as [[sub|e] k'] eqn:Hq.
    + apply Hconn in Hq as ->.
      destruct (IH k' (subs ++ [{| server.sub_Subject := subj;
                                   server.sub_Queue := queue |}]))
        as (m & Hm & Hsubs & Hnone).
      exists (S m). split_and!; [lia| |by intros ->%Hnone].
      rewrite Hsubs, <- app_assoc. done.
    + exists 0%nat. split_and!; [lia| |done]. by rewrite app_nil_r.
Qed.

(** X14: [Subscribe] of the NATS client without a connection fails with
    [ErrNoNATSConnection] and changes nothing, whether or not a tracer is
    set.  With a connection but without a tracer, which is how
    [NewNATSClient] leaves a client that was not given [WithNATSTracer], it
    panics.  With a connection, a tracer and a queue size of zero or less
    it returns [nil] without subscribing, and zero is the queue size of a
    client built without [WithNATSQueueGroup]. *)
Theorem NATSClient_Subscribe_nothing subject c :
  (server.conn c = None →
   server.NATSClient_Subscribe subject c
     = server.Returned (Some server.ErrNoNATSConnection, c)) ∧
  (is_Some (server.conn c) → server.tracer c = None →
   server.NATSClient_Subscribe subject c = server.Panicked) ∧
  (is_Some (server.conn c) → is_Some (server.tracer c) →
   (server.queueSize c ≤ 0)%Z →
   server.NATSClient_Subscribe subject c = server.Returned (None, c)) ∧
  (∀ k p,
     server.NATSClient_Subscribe subject
       (server.NewNATSClient [server.WithNATSConn k; server.WithNATSPrefix p])
     = server.Panicked) ∧
  (∀ k p t,
     server.NATSClient_Subscribe subject
       (server.NewNATSClient
          [server.WithNATSConn k; server.WithNATSPrefix p;
           server.WithNATSTracer (Some t)])
     = server.Returned
         (None,
          server.NewNATSClient
            [server.WithNATSConn k; server.WithNATSPrefix p;
             server.WithNATSTracer (Some t)])).
Proof.
  split_and!.
  - intros Hc. unfold server.NATSClient_Subscribe. by rewrite Hc.
  - intros [k Hk] Ht. unfold server.NATSClient_Subscribe. by rewrite Hk, Ht.
  - intros [k Hk] [t Ht] Hq. unfold server.NATSClient_Subscribe.
    rewrite Hk, Ht.
    replace (Z.to_nat (server.queueSize c)) with 0%nat by lia. cbn.
    destruct c; cbn in *. by subst.
  - done.
  - done.
Qed.

(** X15: with a connection, a call of [Subscribe] of the NATS client that
    returns (it does unless the tracer is nil) has only added
    subscriptions, all of them on the subject [prefix.subject] and the
    queue group of the client, at most [queueSize] of them and exactly
    [queueSize] when it returns [nil]; prefix, queue group and queue size
    are left as they are. *)
Theorem NATSClient_Subscribe_adds subject c err c' :
  faithful_conn →
  is_Some (server.conn c) →
  server.NATSClient_Subscribe subject c = server.Returned (err, c') →
  server.prefix c' = server.prefix c ∧
  server.queueGroup c' = server.queueGroup c ∧
  server.queueSize c' = server.queueSize c ∧
  is_Some (server.conn c') ∧
  ∃ m, (m ≤ Z.to_nat (server.queueSize c))%nat ∧
    server.subscriptions c'
      = server.subscriptions c
        ++ replicate m
             {| server.sub_Subject := server.wire_subject c subject;
                server.sub_Queue := server.queueGroup c |} ∧
    (err = None → m = Z.to_nat (server.queueSize c)).
Proof.
  intros Hconn [k Hk]. unfold server.NATSClient_Subscribe. rewrite Hk.
  destruct (server.tracer c) as [t|]; [|done].
  pose proof (subscribe_queue_spec Hconn (Z.to_nat (server.queueSize c))
                (server.wire_subject c subject) (server.queueGroup c) k
                (server.subscriptions c)) as (m & Hm & Hsubs & Hnone).
  destruct (server.subscribe_queue _ _ _ k _) as [[err0 k'] subs].
  cbn in Hsubs, Hnone. intros [= <- <-]. cbn.
  split_and!; [done..|by eexists|]. by exists m.
Qed.

(** X16: a message that arrives on the subject the client subscribed for a
    router subject is handed on under that router subject, with the
    headers of the NATS message as the headers of the event; a message
    whose payload does not decode is dropped. *)
Theorem Subscribe_handler_round_trip
    (decode : list Byte.byte → Event + error) c subject (msg : server.Msg) :
  server.Subject msg = server.wire_subject c subject →
  (∀ event, decode (server.Data msg) = inl event →
     server.Subscribe_handler decode c msg
       = Some {| server.msg_Subject := subject;
                 server.msg_Event :=
                   {| Action := Action event;
                      Headers := server.Header msg;
                      TraceContext := TraceContext event;
                      ExtensionResourceID := ExtensionResourceID event |} |}) ∧
  (∀ e, decode (server.Data msg) = inr e →
     server.Subscribe_handler decode c msg = None).
Proof.
  intros Hsubj. unfold server.Subscribe_handler. split.
  - intros event ->. rewrite Hsubj. unfold server.wire_subject.
    by rewrite <- append_assoc, TrimPrefix_append.
  - by intros e ->.
Qed.

(** A successful [Subscribe], for the loop of the server. *)
Lemma NATSClient_Subscribe_ok (Hconn : faithful_conn) subject c c' :
  is_Some (server.conn c) →
  server.NATSClient_Subscribe subject c = server.Returned (None, c') →
  server.prefix c' = server.prefix c ∧
  server.queueGroup c' = server.queueGroup c ∧
  server.queueSize c' = server.queueSize c ∧
  is_Some (server.conn c') ∧
  server.subscriptions c'
    = server.subscriptions c
      ++ replicate (Z.to_nat (server.queueSize c))
           {| server.sub_Subject := server.wire_subject c subject;
              server.sub_Queue := server.queueGroup c |}.
Proof.
  intros [k Hk]. unfold server.NATSClient_Subscribe. rewrite Hk.
  destruct (server.tracer c) as [t|]; [|done].
  pose proof (subscribe_queue_spec Hconn (Z.to_nat (server.queueSize c))
                (server.wire_subject c subject) (server.queueGroup c) k
                (server.subscriptions c)) as (m & _ & Hsubs & Hnone).
  destruct (server.subscribe_queue _ _ _ k _) as [[err0 k'] subs].
  cbn in Hsubs, Hnone. intros [= -> <-]. cbn.
  split_and!; [done..|by eexists|]. by rewrite Hsubs, (Hnone eq_refl).
Qed.

End NATSClient_facts.

Section Server_facts.
Context {C S K G Ext : Type} `{!server.Conn K}.
Implicit Types (c : server.NATSClient K).

Lemma Subscribe_subjects_spec (Hconn : faithful_conn) subjs c c' :
  is_Some (server.conn c) →
  server.Subscribe_subjects subjs c = server.Returned (None, c') →
  server.subscriptions c'
    = server.subscriptions c
      ++ flat_map
           (λ subj,
              replicate (Z.to_nat (server.queueSize c))
                {| server.sub_Subject := server.wire_subject c subj;
                   server.sub_Queue := server.queueGroup c |}) subjs.
Proof.
  revert c. induction subjs as [|subj subjs IH]; intros c Hk; cbn.
  - intros [= <-]. by rewrite app_nil_r.
  - destruct (server.NATSClient_Subscribe subj c) as [[[e|] c1]|] eqn:Hsub;
      [done| |done].
    destruct (NATSClient_Subscribe_ok Hconn subj c c1 Hk Hsub)
      as (Hp & Hg & Hs & Hk1 & Hsubs).
    intros Hrest. rewrite (IH c1 Hk1 Hrest), Hsubs.
    rewrite <- app_assoc. unfold server.wire_subject.
    by rewrite Hp, Hg, Hs.
Qed.

(** X17: when [Server.Subscribe] returns [nil] with the NATS client, every
    subject of the router, taken once, has got [queueSize] subscriptions on
    [prefix.subject], and nothing else was subscribed; the router is not
    changed. *)
Theorem Server_Subscribe_all
    (s s' : server.Server C S (server.NATSClient K) G Ext) :
  faithful_conn →
  is_Some (server.conn (server.eventClient s)) →
  server.Server_Subscribe s = server.Returned (None, s') →
  server.eventRouter s' = server.eventRouter s ∧
  NoDup (Subjects (server.eventRouter s)) ∧
  server.subscriptions (server.eventClient s')
    = server.subscriptions (server.eventClient s)
      ++ flat_map
           (λ subj,
              replicate (Z.to_nat (server.queueSize (server.eventClient s)))
                {| server.sub_Subject :=
                     server.wire_subject (server.eventClient s) subj;
                   server.sub_Queue :=
                     server.queueGroup (server.eventClient s) |})
           (Subjects (server.eventRouter s)).
Proof.
  intros Hconn Hk. unfold server.Server_Subscribe.
  destruct (server.Subscribe_subjects _ _) as [[err c']|] eqn:Hsub; [|done].
  intros [= -> <-]. cbn. split_and!; [done| |].
  - unfold Subjects. apply NoDup_fst_map_to_list.
  - by apply (Subscribe_subjects_spec Hconn _ _ _ Hk).
Qed.

End Server_facts.

Lemma Refusing_faithful : faithful_conn (K := server.Refusing).
Proof.
  intros subj queue k subscription k'. cbn.
  case_bool_decide; [done|]. by intros [= <- _].
Qed.

Lemma NATSClient_Subscribe_nothing_witness :
  server.NATSClient_Subscribe "groups"
    (server.NewNATSClient
       [server.WithNATSPrefix "gov"; server.WithNATSQueueGroup "ext" 2])
  = server.Returned
      (Some server.ErrNoNATSConnection,
       server.NewNATSClient (K := server.Refusing)
         [server.WithNATSPrefix "gov"; server.WithNATSQueueGroup "ext" 2]) ∧
  server.NATSClient_Subscribe "groups"
    (server.NewNATSClient
       [server.WithNATSConn {| server.refused := ∅ |};
        server.WithNATSQueueGroup "ext" 2])
  = server.Panicked ∧
  server.NATSClient_Subscribe "groups"
    (server.NewNATSClient
       [server.WithNATSConn {| server.refused := ∅ |};
        server.WithNATSTracer (Some {| server.tracer_name := "nats" |});
        server.WithNATSQueueGroup "ext" (-1)])
  = server.Returned
      (None,
       server.NewNATSClient
         [server.WithNATSConn {| server.refused := ∅ |};
          server.WithNATSTracer (Some {| server.tracer_name := "nats" |});
          server.WithNATSQueueGroup "ext" (-1)]).
Proof.
  split_and!.
  - apply (proj1 (NATSClient_Subscribe_nothing "groups" _)). reflexivity.
  - apply (proj1 (proj2 (NATSClient_Subscribe_nothing "groups" _)));
      [by eexists | reflexivity].
  - apply (proj1 (proj2 (proj2 (NATSClient_Subscribe_nothing "groups" _))));
      [by eexists | by eexists | done].
Defined.

Lemma NATSClient_Subscribe_adds_witness :
  let c := server.NewNATSClient
             [server.WithNATSConn {| server.refused := ∅ |};
              server.WithNATSPrefix "gov";
              server.WithNATSTracer (Some {| server.tracer_name := "nats" |});
              server.WithNATSQueueGroup "ext" 2] in
  let c' := match server.NATSClient_Subscribe "groups" c with
            | server.Returned (_, c') => c'
            | server.Panicked => c
            end in
  server.NATSClient_Subscribe "groups" c = server.Returned (None, c') ∧
  server.subscriptions c'
    = [ {| server.sub_Subject := "gov.groups"; server.sub_Queue := "ext" |};
        {| server.sub_Subject := "gov.groups"; server.sub_Queue := "ext" |} ].
Proof.
  intros c c'. split; [reflexivity|].
  destruct (NATSClient_Subscribe_adds "groups" c None c' Refusing_faithful)
    as (_ & _ & _ & _ & m & _ & Hsubs & Hm); [by eexists|reflexivity|].
  rewrite Hsubs, (Hm eq_refl). reflexivity.
Defined.

Lemma Subscribe_handler_round_trip_witness :
  let c := server.NewNATSClient (K := server.Refusing)
             [server.WithNATSPrefix "gov"] in
  let msg := {| server.Subject := "gov.groups";
                server.Header :=
                  Some {[ GovernorEventCorrelationIDHeader := ["abc"] ]};
                server.Data := [] |} in
  let decode := λ _ : list Byte.byte,
    inl {| Action := GovernorEventUpdate; Headers := None;
           TraceContext := None; ExtensionResourceID := "resource-1" |}
      : Event + error in
  server.Subscribe_handler decode c msg
    = Some {| server.msg_Subject := "groups";
              server.msg_Event := sample_event GovernorEventUpdate "abc" |}.
Proof.
  intros c msg decode.
  apply (proj1 (Subscribe_handler_round_trip decode c "groups" msg eq_refl)
           {| Action := GovernorEventUpdate; Headers := None;
              TraceContext := None; ExtensionResourceID := "resource-1" |}).
  reflexivity.
Defined.

Lemma Server_Subscribe_all_witness :
  let s : server.Server LocalCache nat (server.NATSClient server.Refusing)
            server.Ledger string :=
    {| server.erdDir := "erds"; server.extensionID := "ext-1";
       server.extension := None;
       server.governorClient :=
         {| server.listed := []; server.created := [];
            server.rejected := ∅ |};
       server.eventClient :=
         server.NewNATSClient
           [server.WithNATSConn {| server.refused := ∅ |};
            server.WithNATSPrefix "gov";
            server.WithNATSTracer (Some {| server.tracer_name := "nats" |});
            server.WithNATSQueueGroup "ext" 1];
       server.status := server.StatusBootstrapping;
       server.eventRouter :=
         Update "groups" counting_handler [] correlated_router;
       server.processors := [] |} in
  let s' := match server.Server_Subscribe s with
            | server.Returned (_, s') => s'
            | server.Panicked => s
            end in
  server.Server_Subscribe s = server.Returned (None, s') ∧
  server.subscriptions (server.eventClient s')
    = [ {| server.sub_Subject := "gov.groups"; server.sub_Queue := "ext" |} ].
Proof.
  intros s s'. split; [reflexivity|].
  destruct (Server_Subscribe_all s s' Refusing_faithful) as (_ & _ & Hsubs);
    [by eexists|reflexivity|].
  rewrite Hsubs. reflexivity.
Defined.

(** ** Slugs and the validation of resource definitions *)

Section Regexp_facts.
Import regexp.
Implicit Types (r : regex) (l : list Ascii.ascii) (a : Ascii.ascii).

Lemma lang_nil_nullable r l : lang r l → l = [] → nullable r = true.
Proof.
  induction 1 as [|f a Hf|r1 r2 l1 l2 _ IH1 _ IH2|r1 r2 l _ IH|r1 r2 l _ IH
                  |r|r l1 l2 _ _ _ _]; intros Hnil; cbn; try done.
  - apply app_eq_nil in Hnil as [-> ->]. by rewrite IH1, IH2.
  - by rewrite IH.
  - rewrite IH by done. by destruct (nullable r1).
Qed.

Lemma nullable_lang r : nullable r = true ↔ lang r [].
Proof.
  split; [|intros H; by eapply lang_nil_nullable].
  induction r as [| |f|r1 IH1 r2 IH2|r1 IH1 r2 IH2|r IH]; cbn; try done.
  - intros _. constructor.
  - intros [H1 H2]%andb_true_iff.
    apply (lang_Cat r1 r2 [] []); [by apply IH1 | by apply IH2].
  - intros [H|H]%orb_true_iff.
    + apply lang_Alt_l. by apply IH1.
    + apply lang_Alt_r. by apply IH2.
  - intros _. constructor.
Qed.

Lemma lang_deriv r l : lang r l → ∀ a l', l = a :: l' → lang (deriv a r) l'.
Proof.
  induction 1 as [|f a0 Hf|r1 r2 l1 l2 H1 IH1 H2 IH2|r1 r2 l _ IH|r1 r2 l _ IH
                  |r|r l1 l2 H1 IH1 H2 IH2]; intros a l' Heq; cbn; try done.
  - injection Heq as -> <-. rewrite Hf. constructor.
  - destruct l1 as [|b l1]; cbn in Heq.
    + apply lang_Alt_r. rewrite (lang_nil_nullable r1 [] H1 eq_refl).
      by apply IH2.
    + injection Heq as -> <-. apply lang_Alt_l. constructor; [|done].
      by apply IH1.
  - apply lang_Alt_l. by apply IH.
  - apply lang_Alt_r. by apply IH.
  - destruct l1 as [|b l1]; cbn in Heq.
    + by apply IH2.
    + injection Heq as -> <-. constructor; [|done]. by apply IH1.
Qed.

Lemma deriv_lang a r : ∀ l, lang (deriv a r) l → lang r (a :: l).
Proof.
  induction r as [| |f|r1 IH1 r2 IH2|r1 IH1 r2 IH2|r IH]; cbn; intros l H.
  - inversion H.
  - inversion H.
  - destruct (f a) eqn:Hf; inversion H; subst. by constructor.
  - inversion H as [| | | ? ? ? Hl | ? ? ? Hr | |]; subst.
    + inversion Hl as [| |? ? l1 l2 Hd H2| | | |]; subst.
      apply (lang_Cat r1 r2 (a :: l1) l2); [by apply IH1|done].
    + destruct (nullable r1) eqn:Hn; [|inversion Hr].
      apply (lang_Cat r1 r2 [] (a :: l)); [by apply nullable_lang|].
      by apply IH2.
  - inversion H; subst; [apply lang_Alt_l | apply lang_Alt_r]; auto.
  - inversion H as [| |? ? l1 l2 Hd H2| | | |]; subst.
    apply (lang_Star_app r (a :: l1) l2); [by apply IH|done].
Qed.

(** The matcher decides the language of the pattern. *)
Lemma MatchString_lang r (s : string) :
  MatchString r s = true ↔ lang r (String.list_ascii_of_string s).
Proof.
  revert r. induction s as [|a s IH]; intros r; cbn.
  - apply nullable_lang.
  - rewrite IH. split; [apply deriv_lang|].
    intros H. by eapply lang_deriv.
Qed.

Lemma lang_Star_Class f l :
  lang (Star (Class f)) l ↔ Forall (λ a, f a = true) l.
Proof.
  split.
  - remember (Star (Class f)) as r eqn:Hr.
    induction 1 as [| | | | | |r' l1 l2 H1 _ _ IH2]; try discriminate Hr.
    + constructor.
    + injection Hr as ->. apply Forall_app. split; [|by apply IH2].
      inversion H1; subst. by repeat constructor.
  - induction 1 as [|a l Ha _ IH]; [constructor|].
    apply (lang_Star_app _ [a] l); [by constructor|done].
Qed.

Lemma lang_Plus_Class f l :
  lang (Plus (Class f)) l ↔ l ≠ [] ∧ Forall (λ a, f a = true) l.
Proof.
  unfold Plus. split.
  - inversion 1 as [| |? ? l1 l2 H1 H2| | | |]; subst.
    inversion H1; subst. split; [done|].
    constructor; [done|]. by apply lang_Star_Class.
  - intros [Hne Hall]. destruct Hall as [|a l Ha Hl]; [done|].
    apply (lang_Cat _ _ [a] l); [by constructor | by apply lang_Star_Class].
Qed.

End Regexp_facts.

Section Slug_facts.
Import regexp erdvalidator.
Implicit Types (l w : list Ascii.ascii) (ws : list (list Ascii.ascii))
  (a : Ascii.ascii).

Lemma hyphen_spec a : hyphen a = true ↔ a = hyphen_char.
Proof.
  unfold hyphen, hyphen_char. rewrite Nat.eqb_eq. split.
  - intros Hn. by rewrite <- (Ascii.ascii_nat_embedding a), Hn.
  - by intros ->.
Qed.

Lemma lower_or_digit_not_hyphen a : lower_or_digit a = true → a ≠ hyphen_char.
Proof. by intros Ha ->. Qed.

Lemma lang_slug_tail l :
  lang (Star (Cat (Class hyphen) (Plus (Class lower_or_digit)))) l
  ↔ ∃ ws, Forall slug_word ws ∧ l = concat (map (cons hyphen_char) ws).
Proof.
  split.
  - remember (Star (Cat (Class hyphen) (Plus (Class lower_or_digit)))) as r
      eqn:Hr.
    induction 1 as [| | | | | |r' l1 l2 H1 _ _ IH2]; try discriminate Hr.
    + by exists [].
    + injection Hr as ->. destruct (IH2 eq_refl) as (ws & Hws & ->).
      inversion H1 as [| |? ? l3 l4 Hh Hw| | | |]; subst.
      inversion Hh as [|? a Ha| | | | |]; subst.
      apply hyphen_spec in Ha as ->. apply lang_Plus_Class in Hw.
      exists (l4 :: ws). split; [by constructor|]. done.
  - intros (ws & Hws & ->). induction Hws as [|w ws Hw _ IH]; [constructor|].
    cbn. apply (lang_Star_app _ (hyphen_char :: w)); [|done].
    apply (lang_Cat _ _ [hyphen_char] w).
    + constructor. by apply hyphen_spec.
    + by apply lang_Plus_Class.
Qed.

Lemma isValidSlug_hyphenated (s : string) :
  isValidSlug s = true →
  ∃ w ws, slug_word w ∧ Forall slug_word ws ∧
          String.list_ascii_of_string s = hyphenated w ws.
Proof.
  unfold isValidSlug, slug_pattern, hyphenated. rewrite MatchString_lang.
  inversion 1 as [| |? ? l1 l2 H1 H2| | | |]; subst.
  apply lang_Plus_Class in H1. apply lang_slug_tail in H2 as (ws & Hws & ->).
  by exists l1, ws.
Qed.

(** X18: [isValidSlug] accepts exactly the texts made of one or more
    non-empty words of lowercase letters and digits, joined by single
    hyphens. *)
Theorem isValidSlug_words (s : string) :
  isValidSlug s = true ↔
  ∃ w ws, slug_word w ∧ Forall slug_word ws ∧
          String.list_ascii_of_string s = hyphenated w ws.
Proof.
  split; [apply isValidSlug_hyphenated|].
  unfold isValidSlug, slug_pattern, hyphenated. rewrite MatchString_lang.
  - intros (w & ws & Hw & Hws & ->). constructor.
    + by apply lang_Plus_Class.
    + apply lang_slug_tail. by exists ws.
Qed.

(** No two neighbours in the list are both hyphens. *)
Fixpoint hyphens_apart l : Prop :=
  match l with
  | a :: (b :: _) as l' => ¬ (a = hyphen_char ∧ b = hyphen_char) ∧ hyphens_apart l'
  | _ => True
  end.

Lemma hyphens_apart_word w l :
  Forall (λ a, lower_or_digit a = true) w → hyphens_apart l →
  hyphens_apart (w ++ l).
Proof.
  induction 1 as [|a w Ha _ IH]; [done|]. intros Hl.
  specialize (IH Hl). cbn. destruct (w ++ l) as [|b t]; [done|].
  split; [|done]. intros [-> _]. by apply lower_or_digit_not_hyphen in Ha.
Qed.

Lemma hyphens_apart_tail ws :
  Forall slug_word ws → hyphens_apart (concat (map (cons hyphen_char) ws)).
Proof.
  induction 1 as [|w ws [Hne Hw] _ IH]; [done|]. cbn.
  pose proof (hyphens_apart_word w _ Hw IH) as Happ.
  destruct w as [|a w]; [done|]. cbn in *. split; [|done].
  intros [_ ->]. apply Forall_cons in Hw as [Ha _].
  by apply lower_or_digit_not_hyphen in Ha.
Qed.

Lemma hyphens_apart_lookup l i :
  hyphens_apart l → l !! i = Some hyphen_char → l !! S i ≠ Some hyphen_char.
Proof.
  revert i. induction l as [|a l IH]; intros i; [done|].
  destruct l as [|b l]; [by destruct i|].
  intros [Hab Hl]. destruct i as [|i]; cbn.
  - intros [= ->] [= ->]. by apply Hab.
  - apply (IH i Hl).
Qed.

Lemma hyphenated_last w ws :
  slug_word w → Forall slug_word ws →
  ∃ l a, hyphenated w ws = l ++ [a] ∧ lower_or_digit a = true.
Proof.
  intros Hw Hws. revert w Hw.
  induction Hws as [|w1 ws Hw1 _ IH]; intros w [Hne Hw]; unfold hyphenated.
  - cbn. rewrite app_nil_r.
    destruct (exists_last Hne) as [l [a Hla]]. exists l, a. split; [done|].
    rewrite Hla in Hw.
    apply Forall_app in Hw as [_ Ha]. by inversion Ha.
  - destruct (IH w1 Hw1) as (l & a & Heq & Ha). unfold hyphenated in Heq.
    exists (w ++ hyphen_char :: l), a. split; [|done].
    cbn. by rewrite Heq, <- !app_assoc.
Qed.

(** X19: a valid slug is not empty, consists of lowercase letters, digits
    and hyphens only, neither starts nor ends with a hyphen, and has no two
    hyphens in a row. *)
Theorem isValidSlug_shape (s : string) :
  isValidSlug s = true →
  let l := String.list_ascii_of_string s in
  l ≠ [] ∧
  Forall (λ a, lower_or_digit a = true ∨ a = hyphen_char) l ∧
  head l ≠ Some hyphen_char ∧
  last l ≠ Some hyphen_char ∧
  ∀ i, l !! i = Some hyphen_char → l !! S i ≠ Some hyphen_char.
Proof.
  intros (w & ws & Hw & Hws & Heq)%isValidSlug_hyphenated. cbn zeta.
  rewrite Heq.
  split_and!.
  - destruct Hw as [Hne _]. unfold hyphenated. by destruct w.
  - unfold hyphenated. apply Forall_app. split.
    + destruct Hw as [_ Hw]. eapply Forall_impl; [done|]. by left.
    + clear -Hws. induction Hws as [|w1 ws [_ Hw1] _ IH]; [constructor|].
      cbn. constructor; [by right|]. apply Forall_app. split; [|done].
      eapply Forall_impl; [done|]. by left.
  - destruct Hw as [Hne Hw]. unfold hyphenated.
    destruct w as [|a w]; [done|]. cbn. intros [= ->].
    apply Forall_cons in Hw as [Ha _].
    by apply lower_or_digit_not_hyphen in Ha.
  - destruct (hyphenated_last w ws Hw Hws) as (l & a & -> & Ha).
    rewrite last_snoc. intros [= ->].
    by apply lower_or_digit_not_hyphen in Ha.
  - intros i. apply hyphens_apart_lookup. unfold hyphenated.
    destruct Hw as [_ Hw]. apply hyphens_apart_word; [done|].
    by apply hyphens_apart_tail.
Qed.

End Slug_facts.

Lemma isValidSlug_shape_witness :
  last (String.list_ascii_of_string "hello-world") ≠ Some hyphen_char.
Proof.
  apply (isValidSlug_shape "hello-world"). reflexivity.
Defined.

Section Validate_facts.
Import erdvalidator.
Variable unquote : string → option string.
Variable compile : string → string → string → option error.

Lemma wraps_validation_failed msg :
  errors_Is (ErrWrap msg ErrERDValidationFailed) ErrERDValidationFailed = true.
Proof. reflexivity. Qed.

(** X20: every error of validating a resource definition is an
    [ErrERDValidationFailed] for [errors.Is]: the errors of [Validate], also
    the one of the schema compiler, and the error of [NewValidator] when
    the content does not decode. *)
Theorem validation_errors_are_tagged :
  (∀ v e, Validate unquote compile v = Some e →
     errors_Is e ErrERDValidationFailed = true) ∧
  (∀ content v e, NewValidator [WithERDContent content] = (v, Some e) →
     errors_Is e ErrERDValidationFailed = true).
Proof.
  split.
  - intros v e. unfold Validate, mkValidationErr.
    repeat (case_match; try (intros [= <-]; apply wraps_validation_failed));
      done.
  - intros [erd0 [err|]] v e; cbn; [|done].
    intros [= _ <-]. apply wraps_validation_failed.
Qed.

(** X21: [Validate] accepts a validator exactly if a definition is set
    whose name and version are not empty, whose two slugs are valid, whose
    enabled flag is set, whose scope is user or system, and whose schema is
    not empty and compiles, taken as the text inside when it is a JSON
    string. *)
Theorem Validate_accepts (v : Validator) :
  Validate unquote compile v = None ↔
  ∃ e, erd v = Some e ∧
    Name e ≠ "" ∧
    isValidSlug (SlugSingular e) = true ∧
    isValidSlug (SlugPlural e) = true ∧
    Version e ≠ "" ∧
    is_Some (Enabled e) ∧
    (Scope e = ExtensionResourceDefinitionScopeUser
     ∨ Scope e = ExtensionResourceDefinitionScopeSys) ∧
    Schema e ≠ "" ∧
    compile (SlugPlural e) (Version e)
      (default (Schema e) (unquote (Schema e))) = None.
Proof.
  unfold Validate. destruct (erd v) as [e|]; [|split; [done|]].
  2: { by intros (e & ? & _). }
  split.
  - intros Hv. exists e. split; [done|].
    destruct (String.eqb_spec (Name e) ""); [done|].
    destruct (String.eqb (SlugSingular e) "" || String.eqb (SlugPlural e) "");
      [done|].
    destruct (isValidSlug (SlugSingular e)); [|done].
    destruct (isValidSlug (SlugPlural e)); [|done]. cbn [negb orb] in Hv.
    destruct (String.eqb_spec (Version e) ""); [done|].
    case_bool_decide; [|done]. cbn [negb] in Hv.
    destruct (String.eqb (Scope e) ""); [done|].
    destruct (String.eqb_spec (Scope e) ExtensionResourceDefinitionScopeUser);
      destruct (String.eqb_spec (Scope e) ExtensionResourceDefinitionScopeSys);
      cbn [negb andb] in Hv; try done;
      (destruct (String.eqb_spec (Schema e) ""); [done|];
       split_and!; try done; [by auto|];
       destruct (unquote (Schema e)); cbn;
       by destruct (compile _ _ _)).
  - intros (e' & [= <-] & Hname & Hs1 & Hs2 & Hver & Hen & Hscope & Hschema & Hc).
    rewrite (proj2 (String.eqb_neq _ _) Hname), Hs1, Hs2.
    assert (Hne1 : String.eqb (SlugSingular e) "" = false).
    { apply String.eqb_neq. intros Heq. by rewrite Heq in Hs1. }
    assert (Hne2 : String.eqb (SlugPlural e) "" = false).
    { apply String.eqb_neq. intros Heq. by rewrite Heq in Hs2. }
    rewrite Hne1, Hne2. cbn [negb orb].
    rewrite (proj2 (String.eqb_neq _ _) Hver).
    rewrite (bool_decide_eq_true_2 _ Hen). cbn [negb].
    assert (Hsc : String.eqb (Scope e) "" = false).
    { apply String.eqb_neq. by destruct Hscope as [-> | ->]. }
    rewrite Hsc.
    assert (Hsc' : negb (String.eqb (Scope e) ExtensionResourceDefinitionScopeUser)
                   && negb (String.eqb (Scope e) ExtensionResourceDefinitionScopeSys)
                   = false).
    { by destruct Hscope as [-> | ->]. }
    rewrite Hsc', (proj2 (String.eqb_neq _ _) Hschema).
    destruct (unquote (Schema e)); cbn in Hc; by rewrite Hc.
Qed.

End Validate_facts.

Lemma validation_errors_are_tagged_witness :
  errors_Is
    (ErrWrap "ERD validation failed: ERD name is required"
       erdvalidator.ErrERDValidationFailed)
    erdvalidator.ErrERDValidationFailed = true.
Proof.
  apply (proj1 (validation_errors_are_tagged (λ _, None) (λ _ _ _, None))
           {| erdvalidator.erd := Some erdvalidator.empty_ERD |}).
  reflexivity.
Defined.

(** ** More scenarios of the correlation middleware *)

(** X22: the strategy options of the processor replace one another, they do
    not add up: the strategy is the one of the last strategy option, and
    UpdateOnly when no option is given. *)
Theorem last_strategy_option_wins (opts : list CorrelationIDProcessorOpt) :
  NewCorrelationIDProcessor []
    = CorrelationIDProcessorWithSkipStrategyUpdateOnly
        {| skippableRoutes := ∅ |} ∧
  (∀ sr,
     skippableRoutes
       (NewCorrelationIDProcessor
          (opts ++ [CorrelationIDProcessorWithSkipStrategyCustom sr])) = sr) ∧
  NewCorrelationIDProcessor
    (opts ++ [CorrelationIDProcessorWithSkipStrategyUpdateOnly])
    = NewCorrelationIDProcessor [] ∧
  NewCorrelationIDProcessor
    (opts ++ [CorrelationIDProcessorWithSkipStrategySkipAll])
    = NewCorrelationIDProcessor [CorrelationIDProcessorWithSkipStrategySkipAll].
Proof.
  unfold NewCorrelationIDProcessor. split_and!; [done|..].
  - intros sr. by rewrite fold_left_app.
  - by rewrite fold_left_app.
  - by rewrite fold_left_app.
Qed.

Section Any_cache.
Context {C S : Type} `{!HistoryCache C}.
Implicit Types (next : Handler C S) (w : World C S).

Lemma MWInjectCorrelationID_unseen (p : CorrelationIDProcessor) next ctx
    event w c' :
  ExistsOrStore (clock w) (event_cid event) (histcache w)
    = ((false, None), c') →
  MWInjectCorrelationID p next ctx event w
    = next (InjectCorrelationID ctx (event_cid event)) event
        (set_histcache c' w).
Proof.
  intros Hc. unfold MWInjectCorrelationID, bind.
  rewrite (ShouldSkip_first_sight _ _ _ _ _ _ Hc).
  by rewrite !andb_false_r.
Qed.

Lemma MWInjectCorrelationID_known_update next ctx event w c' :
  Action event = GovernorEventUpdate →
  GetSubjectFromContext ctx ≠ "" → event_cid event ≠ "" →
  ExistsOrStore (clock w) (event_cid event) (histcache w)
    = ((true, None), c') →
  MWInjectCorrelationID (NewCorrelationIDProcessor []) next ctx event w
    = (None, set_histcache c' w).
Proof.
  intros Hact Hsubj Hcid Hc. unfold MWInjectCorrelationID, bind.
  rewrite (ShouldSkip_seen _ _ _ _ _ _ Hc), Hact, UpdateOnly_Update.
  rewrite (bool_decide_eq_true_2 ("*" ∈ ({[ "*" ]} : gset string)))
    by set_solver.
  by rewrite (proj2 (String.eqb_neq _ _) Hsubj),
    (proj2 (String.eqb_neq _ _) Hcid).
Qed.

(** X23: the correlation middleware must be in the chain once only.  When
    it is there twice, on a cache that knows an ID right after storing it,
    the inner one finds the ID the outer one has just stored: an Update
    event with a fresh ID is skipped at its first delivery and the handler
    does not run. *)
Theorem correlation_middleware_twice next ctx event w c1 c2 :
  Action event = GovernorEventUpdate →
  GetSubjectFromContext ctx ≠ "" →
  event_cid event ≠ "" →
  ExistsOrStore (clock w) (event_cid event) (histcache w)
    = ((false, None), c1) →
  ExistsOrStore (clock w) (event_cid event) c1 = ((true, None), c2) →
  let p := NewCorrelationIDProcessor [] in
  MWInjectCorrelationID p (MWInjectCorrelationID p next) ctx event w
    = (None, set_histcache c2 w).
Proof.
  intros Hact Hsubj Hcid H1 H2 p. unfold p.
  rewrite (MWInjectCorrelationID_unseen _ _ _ _ _ _ H1).
  by rewrite (MWInjectCorrelationID_known_update _ _ _ _ c2).
Qed.

End Any_cache.

Lemma correlation_middleware_twice_witness :
  let r : Router LocalCache nat :=
    Update "groups" counting_handler []
      (Use (MWInjectCorrelationID (NewCorrelationIDProcessor []))
         correlated_router) in
  let out := Process r Background "groups"
               (sample_event GovernorEventUpdate "abc") (local_world 0%nat) in
  fst out = None ∧ user (snd out) = 0%nat.
Proof.
  intros r out.
  assert (Hout : out =
    MWInjectCorrelationID (NewCorrelationIDProcessor [])
      (MWInjectCorrelationID (NewCorrelationIDProcessor []) counting_handler)
      (SaveSubjectToContext Background "groups")
      (sample_event GovernorEventUpdate "abc") (local_world 0%nat))
    by reflexivity.
  rewrite Hout.
  rewrite (correlation_middleware_twice counting_handler
             (SaveSubjectToContext Background "groups")
             (sample_event GovernorEventUpdate "abc") (local_world 0%nat)
             (snd (ExistsOrStore 0 "abc" NewLocalCache))
             (snd (ExistsOrStore 0 "abc"
                (snd (ExistsOrStore 0 "abc" NewLocalCache)))));
    try reflexivity; try discriminate.
  split; reflexivity.
Defined.

Section Fleet.
Context {S : Type}.
Implicit Types (r : Router (NATSCache nats.Bucket) S)
  (w : World (NATSCache nats.Bucket) S).


End Fleet.


(** ** Bootstrapping the server *)

Section Bootstrap_facts.
Context {C S EC G Ext : Type} `{!server.GovernorClient G Ext}.
Variable readERDsFromLocalDir :
  string → list erdvalidator.ExtensionResourceDefinitionReq + error.
Implicit Types (s : server.Server C S EC G Ext) (g : G).

Lemma create_missing_filter id localERDs (slugs : list string) g :
  server.create_missing id localERDs (list_to_set slugs) g
  = fold_left
      (λ g' e, snd (server.CreateExtensionResourceDefinition id e g'))
      (filter (λ e, erdvalidator.SlugSingular e ∉ slugs) localERDs) g.
Proof.
  revert g. induction localERDs as [|e l IH]; intros g; [done|].
  cbn [server.create_missing]. rewrite filter_cons.
  case_bool_decide as Hin; rewrite elem_of_list_to_set in Hin.
  - rewrite decide_False by (by intros ?). apply IH.
  - rewrite decide_True by done. cbn [fold_left]. apply IH.
Qed.

(** X25: when the extension is found, the directory is read and governor
    lists its definitions, [Bootstrap] returns [nil], whatever the creation
    calls answer.  It asks governor to create exactly the local definitions
    whose singular slug governor does not list, in the order of the
    directory, and then lets every processor register on the router, in
    order.  The status stays BOOTSTRAPPING. *)
Theorem Bootstrap_creates_missing s ext g1 localERDs erds g2 :
  server.Extension (server.extensionID s) false (server.governorClient s)
    = (inl ext, g1) →
  readERDsFromLocalDir (server.erdDir s) = inl localERDs →
  server.ExtensionResourceDefinitions (server.extensionID s) false g1
    = (inl erds, g2) →
  let missing :=
    filter (λ e, erdvalidator.SlugSingular e ∉ map server.erd_SlugSingular erds)
      localERDs in
  let s' := snd (server.Bootstrap readERDsFromLocalDir s) in
  fst (server.Bootstrap readERDsFromLocalDir s) = None ∧
  server.governorClient s'
    = fold_left
        (λ g e,
           snd (server.CreateExtensionResourceDefinition
                  (server.extensionID s) e g)) missing g2 ∧
  server.eventRouter s'
    = fold_left (λ r processor, processor r ext) (server.processors s)
        (server.eventRouter s) ∧
  server.extension s' = Some ext ∧
  server.status s' = server.StatusBootstrapping.
Proof.
  intros Hext Hread Hlist. cbn zeta.
  unfold server.Bootstrap, server.listERDsFromGovernor.
  rewrite Hext, Hread, Hlist. cbn [fst snd server.governorClient
    server.eventRouter server.extension server.status].
  split_and!; try done. apply create_missing_filter.
Qed.

(** X26: [Bootstrap] fails only when looking up the extension, reading the
    directory or listing the definitions of governor fails, and returns
    that error.  Then nothing was created, no processor was registered on
    the router, and the status is left at BOOTSTRAPPING. *)
Theorem Bootstrap_failure s err s' :
  server.Bootstrap readERDsFromLocalDir s = (Some err, s') →
  server.eventRouter s' = server.eventRouter s ∧
  server.status s' = server.StatusBootstrapping ∧
  ((server.Extension (server.extensionID s) false (server.governorClient s)
      = (inr err, server.governorClient s')
    ∧ server.extension s' = server.extension s) ∨
   (∃ ext,
      server.Extension (server.extensionID s) false (server.governorClient s)
        = (inl ext, server.governorClient s')
      ∧ readERDsFromLocalDir (server.erdDir s) = inr err) ∨
   (∃ ext g1 localERDs,
      server.Extension (server.extensionID s) false (server.governorClient s)
        = (inl ext, g1)
      ∧ readERDsFromLocalDir (server.erdDir s) = inl localERDs
      ∧ server.ExtensionResourceDefinitions (server.extensionID s) false g1
        = (inr err, server.governorClient s'))).
Proof.
  unfold server.Bootstrap, server.listERDsFromGovernor.
  destruct (server.Extension _ _ _) as [[ext|e1] g1] eqn:Hext.
  - destruct (readERDsFromLocalDir _) as [localERDs|e2] eqn:Hread.
    + destruct (server.ExtensionResourceDefinitions _ _ g1)
        as [[erds|e3] g2] eqn:Hlist; [done|].
      intros [= <- <-]. cbn. split_and!; [done..|].
      right. right. by exists ext, g1, localERDs.
    + intros [= <- <-]. cbn. split_and!; [done..|].
      right. left. by exists ext.
  - intros [= <- <-]. cbn. split_and!; [done..|]. by left.
Qed.

End Bootstrap_facts.

Lemma Bootstrap_creates_missing_witness :
  let erd slug :=
    {| erdvalidator.Name := slug; erdvalidator.Description := "";
       erdvalidator.Enabled := Some true;
       erdvalidator.SlugSingular := slug;
       erdvalidator.SlugPlural := slug +:+ "s";
       erdvalidator.Version := "v1"; erdvalidator.Scope := "user";
       erdvalidator.Schema := "{}" |} in
  let read := λ _ : string,
    inl [erd "greeting"; erd "farewell"; erd "farewell"]
      : list erdvalidator.ExtensionResourceDefinitionReq + error in
  let s : server.Server LocalCache nat unit server.Ledger string :=
    {| server.erdDir := "erds"; server.extensionID := "ext-1";
       server.extension := None;
       server.governorClient :=
         {| server.listed := ["greeting"]; server.created := [];
            server.rejected := {[ "farewell" ]} |};
       server.eventClient := tt;
       server.status := "";
       server.eventRouter := correlated_router;
       server.processors :=
         [λ r _, Update "greetings" counting_handler [] r] |} in
  fst (server.Bootstrap read s) = None ∧
  server.created (server.governorClient (snd (server.Bootstrap read s)))
    = ["farewell"; "farewell"] ∧
  Subjects (server.eventRouter (snd (server.Bootstrap read s)))
    = ["greetings"].
Proof.
  intros erd read s.
  destruct (Bootstrap_creates_missing read s "ext-1" (server.governorClient s)
              [erd "greeting"; erd "farewell"; erd "farewell"]
              [server.mkERD "greeting"] (server.governorClient s))
    as (Hnil & Hclient & Hrouter & _ & _); try reflexivity.
  split_and!; [exact Hnil| |].
  - rewrite Hclient. reflexivity.
  - rewrite Hrouter. reflexivity.
Defined.

Lemma Bootstrap_failure_witness :
  let read := λ _ : string,
    inr (ErrOther "open erds: no such file or directory")
      : list erdvalidator.ExtensionResourceDefinitionReq + error in
  let s : server.Server LocalCache nat unit server.Ledger string :=
    {| server.erdDir := "erds"; server.extensionID := "ext-1";
       server.extension := None;
       server.governorClient :=
         {| server.listed := []; server.created := [];
            server.rejected := ∅ |};
       server.eventClient := tt;
       server.status := "";
       server.eventRouter := correlated_router;
       server.processors :=
         [λ r _, Update "greetings" counting_handler [] r] |} in
  Subjects (server.eventRouter (snd (server.Bootstrap read s))) = [].
Proof.
  intros read s.
  destruct (Bootstrap_failure read s
              (ErrOther "open erds: no such file or directory")
              (snd (server.Bootstrap read s))) as (Hrouter & _);
    [reflexivity|].
  rewrite Hrouter. reflexivity.
Defined.

(** ** The order of the options of the router *)

Section Option_order.
Context {C S : Type} `{!HistoryCache C}.
Implicit Types (w : World C S) (h : Handler C S).

(** X10: the options of [NewRouter] are applied in the order given, so the
    last one is outermost.  With the correlation processor given after a
    middleware, a skipped event does not reach that middleware; given
    before it, the inbound and outbound code of the middleware still run
    around the skip. *)
Theorem option_order_decides_what_a_skip_skips pre post h ctx subj event w :
  Action event = GovernorEventUpdate →
  subj ≠ "" →
  event_cid event ≠ "" →
  let p := NewCorrelationIDProcessor [] in
  let outer := Update subj h []
    (NewRouter [WithMiddleware (around pre post);
                WithCorrelationIDProcessor p]) in
  let inner := Update subj h []
    (NewRouter [WithCorrelationIDProcessor p;
                WithMiddleware (around pre post)]) in
  (∀ c', ExistsOrStore (clock w) (event_cid event) (histcache w)
           = ((true, None), c') →
     Process outer ctx subj event w = (None, set_histcache c' w)) ∧
  (∀ c', ExistsOrStore (clock (pre w)) (event_cid event) (histcache (pre w))
           = ((true, None), c') →
     Process inner ctx subj event w
       = (None, post (set_histcache c' (pre w)))).
Proof.
  intros Hact Hsubj Hcid p outer inner.
  assert (Hbound : ∀ r : Router C S,
    Process (Update subj h [] r) ctx subj event w
      = mwchain r h (SaveSubjectToContext ctx subj) event w).
  { intros r. unfold Update.
    rewrite (Process_bound (addRoute GovernorEventUpdate subj h [] r)
               ctx subj event w
               (<[ GovernorEventUpdate := h ]> (default ∅ (routes r !! subj)))
               h); [done| |].
    - unfold addRoute. cbn [routes]. rewrite lookup_insert_eq.
      by destruct (routes r !! subj).
    - rewrite Hact. apply lookup_insert_eq. }
  split; intros c' Hc.
  - unfold outer. rewrite Hbound.
    change (mwchain (NewRouter [WithMiddleware (around pre post);
                                WithCorrelationIDProcessor p]) h)
      with (MWInjectCorrelationID p (around pre post h)).
    by apply MWInjectCorrelationID_known_update.
  - unfold inner. rewrite Hbound.
    change (mwchain (NewRouter [WithCorrelationIDProcessor p;
                                WithMiddleware (around pre post)]) h)
      with (around pre post (MWInjectCorrelationID p h)).
    unfold around.
    by rewrite (MWInjectCorrelationID_known_update h _ event (pre w) c').
Qed.

End Option_order.

Lemma option_order_decides_what_a_skip_skips_witness :
  let p := NewCorrelationIDProcessor [] in
  let A := around (mark "A in") (mark "A out") in
  let w : World LocalCache (list string) :=
    {| clock := 5; histcache := snd (ExistsOrStore 0 "abc" NewLocalCache);
       user := [] |} in
  let event := sample_event GovernorEventUpdate "abc" in
  user (snd (Process
               (Update "groups" marking_handler []
                  (NewRouter [WithMiddleware A; WithCorrelationIDProcessor p]))
               Background "groups" event w)) = [] ∧
  user (snd (Process
               (Update "groups" marking_handler []
                  (NewRouter [WithCorrelationIDProcessor p; WithMiddleware A]))
               Background "groups" event w)) = ["A in"; "A out"].
Proof.
  intros p A w event.
  destruct (option_order_decides_what_a_skip_skips
              (mark "A in") (mark "A out") marking_handler Background "groups"
              event w) as [Houter Hinner]; try reflexivity; try discriminate.
  split.
  - unfold A, p.
    rewrite (Houter (snd (ExistsOrStore 5 "abc" (histcache w)))); reflexivity.
  - unfold A, p.
    rewrite (Hinner (snd (ExistsOrStore 5 "abc" (histcache w)))); reflexivity.
Defined.

(** ** Recording comes first *)

Section Record_first.
Context {S : Type}.
Implicit Types (w : World LocalCache S) (next : Handler LocalCache S).

(** X11: the correlation ID of an event is stored before the next handler
    runs, not after it returns: on the first sight of an ID, whatever the
    strategy and the action, the next handler starts in a world whose cache
    already holds the ID, and the cache is the only thing changed. *)
Theorem ID_is_recorded_before_the_handler (p : CorrelationIDProcessor) next
    ctx event w :
  expirable.live (clock w) (event_cid event) (cache (histcache w)) = false →
  (0 ≤ expirable.ttl (cache (histcache w)))%Z →
  ∃ w1,
    MWInjectCorrelationID p next ctx event w
      = next (InjectCorrelationID ctx (event_cid event)) event w1 ∧
    expirable.live (clock w1) (event_cid event) (cache (histcache w1)) = true ∧
    clock w1 = clock w ∧ user w1 = user w.
Proof.
  intros Hfresh Httl.
  exists (set_histcache
            (snd (ExistsOrStore (clock w) (event_cid event) (histcache w))) w).
  split_and!; [| |done|done].
  - by apply MWInjectCorrelationID_first_sight.
  - cbn [clock histcache set_histcache ExistsOrStore LocalCache_HistoryCache].
    apply live_after_fresh; [done|lia].
Qed.

End Record_first.

Lemma ID_is_recorded_before_the_handler_witness :
  ∃ w1 : World LocalCache nat,
    MWInjectCorrelationID
      (NewCorrelationIDProcessor [CorrelationIDProcessorWithSkipStrategyCustom ∅])
      counting_handler (SaveSubjectToContext Background "groups")
      (sample_event GovernorEventDelete "abc") (local_world 0%nat)
    = counting_handler
        (InjectCorrelationID (SaveSubjectToContext Background "groups") "abc")
        (sample_event GovernorEventDelete "abc") w1 ∧
    expirable.live (clock w1) "abc" (cache (histcache w1)) = true ∧
    clock w1 = 0%Z ∧ user w1 = 0%nat.
Proof.
  apply (ID_is_recorded_before_the_handler
           (NewCorrelationIDProcessor
              [CorrelationIDProcessorWithSkipStrategyCustom ∅])
           counting_handler (SaveSubjectToContext Background "groups")
           (sample_event GovernorEventDelete "abc") (local_world 0%nat)).
  - reflexivity.
  - vm_compute. discriminate.
Defined.

(** ** The first failing subscription *)

Section Subscribe_failure.
Context {EC : Type} `{!server.EventClient EC}.

(** X27: [Server.Subscribe] stops at the first subject whose subscription
    fails: it returns that error, and the subjects after it are not
    subscribed. *)
Theorem Subscribe_stops_at_first_failure (before after : list string)
    (subj : string) (ec ec1 ec2 : EC) (err : error) :
  server.Subscribe_subjects before ec = server.Returned (None, ec1) →
  server.Subscribe subj ec1 = server.Returned (Some err, ec2) →
  server.Subscribe_subjects (before ++ subj :: after) ec
    = server.Returned (Some err, ec2).
Proof.
  revert ec. induction before as [|b before IH]; intros ec; cbn.
  - intros [= ->] Hfail. by rewrite Hfail.
  - destruct (server.Subscribe b ec) as [[[e|] ec']|]; [done| |done].
    apply IH.
Qed.

End Subscribe_failure.

Lemma Subscribe_stops_at_first_failure_witness :
  let c := server.NewNATSClient
             [server.WithNATSConn {| server.refused := {[ "gov.users" ]} |};
              server.WithNATSPrefix "gov";
              server.WithNATSTracer (Some {| server.tracer_name := "nats" |});
              server.WithNATSQueueGroup "ext" 1] in
  let c1 := match server.Subscribe "groups" c with
            | server.Returned (_, c1) => c1
            | server.Panicked => c
            end in
  server.Subscribe_subjects ["groups"; "users"; "roles"] c
    = server.Returned (Some (ErrOther "permission denied"), c1) ∧
  server.subscriptions c1
    = [ {| server.sub_Subject := "gov.groups"; server.sub_Queue := "ext" |} ].
Proof.
  intros c c1. split; [|reflexivity].
  apply (Subscribe_stops_at_first_failure ["groups"] ["roles"] "users" c
           c1 c1 (ErrOther "permission denied")); reflexivity.
Defined.
